(** * fmjs: a file manager over the HTML5 file system and Google Drive

    Shallow embedding of [fmjs] (the file manager module) and proofs about
    its path utilities, its buffer conversions, the Google Drive backend
    [fmjs.GDriveFileManager] and the local backend [fmjs.LocalFileManager].

    Conventions of the embedding.
    - A JavaScript string is the list of its UTF-16 code units ([jsstring]).
    - An [ArrayBuffer] is the list of its bytes ([Byte.byte]).
    - The code is callback driven.  A callback is a continuation
      [value -> M unit]; an operation of the Google client library runs its
      continuation when the request has completed.  [M] threads the world
      (manager fields, client library, remote drive, trace of observable
      events) and carries an uncaught exception to the top.
    - The Google client library ([gapi]) and the remote drive are the
      environment: they are modelled after section 6 of the specification
      (list children by name and type, insert, get, copy, delete, about).
    - The engine is part of the environment too: the number of arguments
      it accepts in [Function.prototype.apply] bounds the buffers that
      [fmjs.ab2str] converts. *)

From Stdlib Require Import String Ascii.
From Stdlib Require Import DecimalString.
From Stdlib Require Import List NArith ZArith Bool Lia.
From Stdlib.Strings Require Import Byte.
Import ListNotations.

Local Open Scope N_scope.

(** ** JavaScript strings *)

Definition jsstring := list N.

(** A literal of the source: one code unit per character. *)
Definition lit (s : string) : jsstring :=
  map N_of_ascii (list_ascii_of_string s).

(** [===] on strings. *)
Fixpoint str_eqb (s t : jsstring) : bool :=
  match s, t with
  | [], [] => true
  | c :: s', d :: t' => (c =? d) && str_eqb s' t'
  | _, _ => false
  end.

Definition slash : N := 47.
Definition squote : jsstring := [39].
Definition dquote : jsstring := [34].
Definition CRLF : jsstring := [13; 10].

(** [s.split(sep)] for a separator of one code unit: the result is never
    empty, [''.split('/')] is [['']]. *)
Fixpoint split (sep : N) (s : jsstring) : list jsstring :=
  match s with
  | [] => [[]]
  | c :: s' =>
      if c =? sep then [] :: split sep s'
      else match split sep s' with
           | [] => [[c]]
           | seg :: segs => (c :: seg) :: segs
           end
  end.

(** [segs.join(sep)]. *)
Fixpoint join (sep : N) (segs : list jsstring) : jsstring :=
  match segs with
  | [] => []
  | [seg] => seg
  | seg :: segs' => seg ++ sep :: join sep segs'
  end.

(** [a.slice(1)] on an array. *)
Definition slice1 {A} (a : list A) : list A := skipn 1 a.

(** [s.lastIndexOf(c)]: the index of the last occurrence, or -1. *)
Fixpoint lastIndexOf (c : N) (s : jsstring) : Z :=
  match s with
  | [] => (-1)%Z
  | x :: s' =>
      let r := lastIndexOf c s' in
      if (0 <=? r)%Z then (r + 1)%Z
      else if x =? c then 0%Z else (-1)%Z
  end.

(** [s.substring(a, b)]: both indices are clamped to [0, s.length] and
    swapped when [a > b]. *)
Definition clamp (len : nat) (i : Z) : nat :=
  Nat.min (Z.to_nat i) len.

Definition substring (s : jsstring) (a b : Z) : jsstring :=
  let a' := clamp (length s) a in
  let b' := clamp (length s) b in
  let from := Nat.min a' b' in
  let to := Nat.max a' b' in
  firstn (to - from) (skipn from s).

(** [s.substring(a)]: up to the end of the string. *)
Definition substring_from (s : jsstring) (a : Z) : jsstring :=
  substring s a (Z.of_nat (length s)).

(** ** fmjs.path2array *)

(** [entries[0] === '.' || entries[0] === ''] *)
Definition first_is_dot_or_empty (entries : list jsstring) : bool :=
  match nth_error entries 0 with
  | Some e => str_eqb e (lit ".") || str_eqb e (lit "")
  | None => false
  end.

Definition path2array (path : jsstring) : list jsstring :=
  let entries := split slash path in
  if first_is_dot_or_empty entries then slice1 entries else entries.

(** The specification's wording of the same function: split on '/', then
    remove exactly the first element when it is the empty string or ".". *)
Definition spec_pathToSegments (p : jsstring) : list jsstring :=
  match split slash p with
  | [] => []
  | first :: others =>
      if str_eqb first [] || str_eqb first (lit ".") then others
      else first :: others
  end.

(** ** fmjs.ab2str and fmjs.str2ab *)

Definition ArrayBuffer := list byte.

(** [String.fromCharCode] takes each argument modulo 2^16. *)
Definition fromCharCode (n : N) : N := n mod 65536.

(** Storing a number in a [Uint8Array] keeps it modulo 2^8. *)
Definition to_uint8 (n : N) : byte :=
  match Byte.of_N (n mod 256) with
  | Some b => b
  | None => x00
  end.

(** The string [String.fromCharCode] returns for the bytes of [buf] as
    its arguments: one code unit for each byte. *)
Definition fromCharCode_apply (buf : ArrayBuffer) : jsstring :=
  map (fun b => fromCharCode (Byte.to_N b)) buf.

(** [String.fromCharCode.apply(null, new Uint8Array(buf))] passes one
    argument for each byte of the buffer.  An engine accepts a bounded
    number of arguments in [apply] ([limit]: 65536 in JavaScriptCore, a
    bound that depends on the stack size elsewhere) and throws a RangeError
    past it: [None]. *)
Definition ab2str (limit : N) (buf : ArrayBuffer) : option jsstring :=
  if N.of_nat (length buf) <=? limit then Some (fromCharCode_apply buf)
  else None.

(** [bufView[i] = v]: a write past the end of a typed array is ignored. *)
Fixpoint store_at (bufView : list byte) (i : nat) (v : byte) : list byte :=
  match bufView, i with
  | [], _ => []
  | _ :: rest, O => v :: rest
  | b :: rest, S i' => b :: store_at rest i' v
  end.

(** [str.charCodeAt(i)]; out of range is NaN, stored as 0. *)
Definition charCodeAt (str : jsstring) (i : nat) : N := nth i str 0.

(** The [for] loop of [str2ab], [todo] iterations left, at index [i]. *)
Fixpoint str2ab_loop (str : jsstring) (todo i : nat) (bufView : list byte)
  : list byte :=
  match todo with
  | O => bufView
  | S todo' =>
      str2ab_loop str todo' (S i) (store_at bufView i (to_uint8 (charCodeAt str i)))
  end.

Definition str2ab (str : jsstring) : ArrayBuffer :=
  let buf := repeat x00 (length str) in
  str2ab_loop str (length str) 0 buf.

(** ** Platform functions used by the Drive backend *)

Definition b64_alphabet : jsstring :=
  lit "ABCDEFGHIJKLMNOPQRSTUVWXYZabcdefghijklmnopqrstuvwxyz0123456789+/".

Definition b64_pad : N := 61.

Definition b64_char (sextet : N) : N := nth (N.to_nat sextet) b64_alphabet b64_pad.

Fixpoint b64_encode (s : list N) : jsstring :=
  match s with
  | [] => []
  | [a] => [b64_char (a / 4); b64_char ((a mod 4) * 16); b64_pad; b64_pad]
  | [a; b] =>
      [b64_char (a / 4); b64_char ((a mod 4) * 16 + b / 16);
       b64_char ((b mod 16) * 4); b64_pad]
  | a :: b :: c :: rest =>
      b64_char (a / 4) :: b64_char ((a mod 4) * 16 + b / 16)
        :: b64_char ((b mod 16) * 4 + c / 64) :: b64_char (c mod 64)
        :: b64_encode rest
  end.

(** [btoa(s)]: [None] stands for the InvalidCharacterError raised on a code
    unit above 255. *)
Definition btoa (s : jsstring) : option jsstring :=
  if forallb (fun c => c <=? 255) s then Some (b64_encode s) else None.

Fixpoint index_of (c : N) (s : jsstring) : option N :=
  match s with
  | [] => None
  | x :: s' => if x =? c then Some 0
               else option_map N.succ (index_of c s')
  end.

Definition is_ascii_space (c : N) : bool :=
  (c =? 9) || (c =? 10) || (c =? 12) || (c =? 13) || (c =? 32).

Fixpoint strip_padding (s : jsstring) : jsstring :=
  match s with
  | [] => []
  | [p] => if p =? b64_pad then [] else [p]
  | [p; q] => if (q =? b64_pad) then (if p =? b64_pad then [] else [p]) else [p; q]
  | c :: s' => c :: strip_padding s'
  end.

Fixpoint sextets (s : jsstring) : option (list N) :=
  match s with
  | [] => Some []
  | c :: s' =>
      match index_of c b64_alphabet, sextets s' with
      | Some v, Some vs => Some (v :: vs)
      | _, _ => None
      end
  end.

Fixpoint b64_decode (v : list N) : jsstring :=
  match v with
  | a :: b :: c :: d :: rest =>
      (a * 4 + b / 16) :: ((b mod 16) * 16 + c / 4) :: ((c mod 4) * 64 + d)
        :: b64_decode rest
  | [a; b; c] => [a * 4 + b / 16; (b mod 16) * 16 + c / 4]
  | [a; b] => [a * 4 + b / 16]
  | _ => []
  end.

(** [atob(s)]: [None] stands for the InvalidCharacterError. *)
Definition atob (s : jsstring) : option jsstring :=
  let s1 := filter (fun c => negb (is_ascii_space c)) s in
  let s2 := if Nat.eqb (Nat.modulo (length s1) 4) 0 then strip_padding s1 else s1 in
  if Nat.eqb (Nat.modulo (length s2) 4) 1 then None
  else option_map b64_decode (sextets s2).

Definition hex_digit (n : N) : N := nth (N.to_nat n) (lit "0123456789abcdef") 48.

(** The escape of one code unit inside a JSON string (ES5.1, Quote). *)
Definition json_escape (c : N) : jsstring :=
  if c =? 34 then [92; 34]
  else if c =? 92 then [92; 92]
  else if c =? 8 then [92; 98]
  else if c =? 12 then [92; 102]
  else if c =? 10 then [92; 110]
  else if c =? 13 then [92; 114]
  else if c =? 9 then [92; 116]
  else if c <? 32 then [92; 117; 48; 48; hex_digit (c / 16); hex_digit (c mod 16)]
  else [c].

Definition json_string (s : jsstring) : jsstring :=
  dquote ++ flat_map json_escape s ++ dquote.

(** The object [metadata] of [writeFile]; [parent_id] is [baseDirResp.id],
    which is [undefined] ([None]) on an object without that property. *)
Record metadata := {
  meta_title : jsstring;
  meta_mimeType : jsstring;
  meta_parent_id : option jsstring
}.

(** [JSON.stringify(metadata)]: properties in insertion order, an
    [undefined] property is left out. *)
Definition JSON_stringify (m : metadata) : jsstring :=
  lit "{" ++ json_string (lit "title") ++ lit ":" ++ json_string (meta_title m)
  ++ lit "," ++ json_string (lit "mimeType") ++ lit ":" ++ json_string (meta_mimeType m)
  ++ lit "," ++ json_string (lit "parents") ++ lit ":[{"
  ++ match meta_parent_id m with
     | Some i => json_string (lit "id") ++ lit ":" ++ json_string i
     | None => []
     end
  ++ lit "}]}".

(** ** Runs

    A run threads a world of type [W] and either returns or ends in an
    uncaught exception; the world reached so far is kept. *)

Inductive js_error :=
| TypeError (msg : string)
| Error (msg : string)
| ReferenceError (msg : string)
| RangeError (msg : string)
| InvalidCharacterError.

Inductive result (A : Type) :=
| Ok (a : A)
| Throw (e : js_error).
Arguments Ok {A} a.
Arguments Throw {A} e.

Definition run (W A : Type) : Type := W -> result A * W.

Definition ret {W A} (a : A) : run W A := fun w => (Ok a, w).

Definition bind {W A B} (c : run W A) (k : A -> run W B) : run W B :=
  fun w => match c w with
           | (Ok a, w') => k a w'
           | (Throw e, w') => (Throw e, w')
           end.

Definition throw {W A} (e : js_error) : run W A := fun w => (Throw e, w).

Definition get {W} : run W W := fun w => (Ok w, w).

Definition modify {W} (f : W -> W) : run W unit := fun w => (Ok tt, f w).

Declare Scope run_scope.
Delimit Scope run_scope with run.
Notation "x <- c ;; k" := (bind c (fun x => k))
  (at level 100, c at next level, right associativity) : run_scope.
Notation "c ;; k" := (bind c (fun _ => k))
  (at level 100, right associativity) : run_scope.
Local Open Scope run_scope.

(** ** The world: manager, client library, remote drive, trace *)

(** [{name: ..., emailAddress: ...}] *)
Record user_info := {
  user_name : jsstring;
  user_emailAddress : jsstring
}.

(** An entry of the remote drive (a file resource). *)
Record entry := {
  file_id : jsstring;
  file_title : jsstring;
  file_mimeType : jsstring;
  file_parents : list jsstring;
  file_downloadUrl : jsstring;
  file_content : ArrayBuffer
}.

(** The values handed to callbacks and to the console. *)
Inductive value :=
| VNull
| VUndefined
| VBool (b : bool)
| VRef (id : jsstring)        (* an object with an id only: [{'id': 'root'}], a child reference *)
| VFile (f : entry)           (* a file resource *)
| VError (code : N)           (* an error response of the service *)
| VData (buf : ArrayBuffer)
| VUser (u : user_info)
| VString (s : jsstring).

(** The argument of [gapi.client.request]. *)
Record request := {
  req_path : jsstring;
  req_method : jsstring;
  req_params : list (jsstring * jsstring);
  req_headers : list (jsstring * jsstring);
  req_body : jsstring
}.

(** What can be observed of a run: the requests sent to the client
    library, the console and the calls of the caller's callback. *)
Inductive event :=
| EvGapiLoad (libs : jsstring)
| EvAuthorize (client_id scope : jsstring) (immediate : bool)
| EvClientLoad (api version : jsstring)
| EvChildrenList (folderId q : jsstring)
| EvFilesInsert (title mimeType parent : jsstring)
| EvFilesGet (fileId : jsstring)
| EvFilesCopy (fileId title : jsstring)
| EvFilesDelete (fileId : jsstring)
| EvPermissionsInsert (fileId grantee type role : jsstring)
| EvAboutGet
| EvRequest (r : request)
| EvXhrGet (url authorization : jsstring)
| EvConsoleError (msg : jsstring)
| EvConsoleLog (v : value)
| EvCallback (v : value).

(** The fields of a [fmjs.GDriveFileManager].  The constructor initialises
    [autorized] (sic); the methods read and write [authorized], which does
    not exist ([None], undefined) until [requestFS] sets it. *)
Record GDriveFileManager := {
  CLIENT_ID : jsstring;
  SCOPES : jsstring;
  clientOAuthAPILoaded : bool;
  autorized : bool;
  authorized : option bool;
  driveAPILoaded : bool;
  userInfo : option user_info
}.

(** [new fmjs.GDriveFileManager(clientId)] *)
Definition new_GDriveFileManager (clientId : jsstring) : GDriveFileManager :=
  {| CLIENT_ID := clientId;
     SCOPES := lit "https://www.googleapis.com/auth/drive.file";
     clientOAuthAPILoaded := false;
     autorized := false;
     authorized := None;
     driveAPILoaded := false;
     userInfo := None |}.

(** The environment: the engine, the Google client library and the
    service behind it. *)
Record gapi_env := {
  max_arguments : N;                (* the most arguments the engine accepts in [apply] *)
  auth_client_loaded : bool;        (* [gapi.auth] and [gapi.client] exist *)
  drive_loaded : bool;              (* [gapi.client.drive] exists *)
  grants : bool -> bool;            (* does [authorize] succeed, by [immediate] *)
  access_token : option jsstring;   (* [gapi.auth.getToken()], null without a token *)
  upload_failure : option N;        (* the error the upload endpoint answers with *)
  about_name : jsstring;            (* [resp.name] of [about.get] *)
  about_email : jsstring;           (* [resp.user.emailAddress] of [about.get] *)
  http_get : jsstring -> option jsstring  (* body of a GET, [None] on a network error *)
}.

Record world := {
  mgr : GDriveFileManager;
  env : gapi_env;
  store : list entry;
  trace : list event
}.

Definition with_mgr (m : GDriveFileManager) (w : world) : world :=
  {| mgr := m; env := env w; store := store w; trace := trace w |}.
Definition with_env (g : gapi_env) (w : world) : world :=
  {| mgr := mgr w; env := g; store := store w; trace := trace w |}.
Definition with_store (d : list entry) (w : world) : world :=
  {| mgr := mgr w; env := env w; store := d; trace := trace w |}.
Definition with_trace (t : list event) (w : world) : world :=
  {| mgr := mgr w; env := env w; store := store w; trace := t |}.

Definition set_authorized (m : GDriveFileManager) : GDriveFileManager :=
  {| CLIENT_ID := CLIENT_ID m; SCOPES := SCOPES m;
     clientOAuthAPILoaded := clientOAuthAPILoaded m; autorized := autorized m;
     authorized := Some true;
     driveAPILoaded := driveAPILoaded m; userInfo := userInfo m |}.
Definition set_driveAPILoaded (m : GDriveFileManager) : GDriveFileManager :=
  {| CLIENT_ID := CLIENT_ID m; SCOPES := SCOPES m;
     clientOAuthAPILoaded := clientOAuthAPILoaded m; autorized := autorized m;
     authorized := authorized m;
     driveAPILoaded := true; userInfo := userInfo m |}.
Definition set_userInfo (u : user_info) (m : GDriveFileManager) : GDriveFileManager :=
  {| CLIENT_ID := CLIENT_ID m; SCOPES := SCOPES m;
     clientOAuthAPILoaded := clientOAuthAPILoaded m; autorized := autorized m;
     authorized := authorized m;
     driveAPILoaded := driveAPILoaded m; userInfo := Some u |}.
Definition set_auth_client_loaded (g : gapi_env) : gapi_env :=
  {| max_arguments := max_arguments g;
     auth_client_loaded := true; drive_loaded := drive_loaded g;
     grants := grants g; access_token := access_token g;
     upload_failure := upload_failure g; about_name := about_name g;
     about_email := about_email g; http_get := http_get g |}.
Definition set_drive_loaded (g : gapi_env) : gapi_env :=
  {| max_arguments := max_arguments g;
     auth_client_loaded := auth_client_loaded g; drive_loaded := true;
     grants := grants g; access_token := access_token g;
     upload_failure := upload_failure g; about_name := about_name g;
     about_email := about_email g; http_get := http_get g |}.

(** ** Runs of the Drive backend *)

Definition M : Type -> Type := run world.

Definition emit (e : event) : M unit :=
  modify (fun w => with_trace (trace w ++ [e]) w).

Definition callback := value -> M unit.

(** [if (callback) { callback(v); }] *)
Definition call_if (cb : option callback) (v : value) : M unit :=
  match cb with
  | Some f => f v
  | None => ret tt
  end.

(** The caller of the library, as an observer: its callback records the
    value it is called with. *)
Definition user_cb : callback := fun v => emit (EvCallback v).

Definition console_error (msg : jsstring) : M unit := emit (EvConsoleError msg).
Definition console_log (v : value) : M unit := emit (EvConsoleLog v).

(** Truthiness of a value. *)
Definition truthy (v : value) : bool :=
  match v with
  | VNull | VUndefined | VBool false => false
  | _ => true
  end.

(** [v.id]: a TypeError on null and undefined, [undefined] on an object
    without the property. *)
Definition prop_id (v : value) : M (option jsstring) :=
  match v with
  | VNull => throw (TypeError "Cannot read property 'id' of null")
  | VUndefined => throw (TypeError "Cannot read property 'id' of undefined")
  | VRef i => ret (Some i)
  | VFile f => ret (Some (file_id f))
  | _ => ret None
  end.

(** ** The client library and the remote drive *)

Definition folder_mimeType : jsstring := lit "application/vnd.google-apps.folder".

(** The two search strings the backend sends to [children.list]. *)
Definition q_folder_named (name : jsstring) : jsstring :=
  lit "mimeType='application/vnd.google-apps.folder' and title='" ++ name ++ squote.
Definition q_file_named (name : jsstring) : jsstring :=
  lit "mimeType!='application/vnd.google-apps.folder' and title='" ++ name ++ squote.

(** What the service makes of a search string: a type filter and a name
    filter, the name being all that stands between [title='] and the
    closing quote.  Any other string is a malformed query. *)
Record query := {
  q_is_folder : bool;
  q_title : jsstring
}.

Fixpoint strip_prefix (p s : jsstring) : option jsstring :=
  match p, s with
  | [], _ => Some s
  | c :: p', d :: s' => if c =? d then strip_prefix p' s' else None
  | _ :: _, [] => None
  end.

Definition strip_closing_quote (s : jsstring) : option jsstring :=
  match rev s with
  | c :: r => if c =? 39 then Some (rev r) else None
  | [] => None
  end.

Definition parse_query (q : jsstring) : option query :=
  match strip_prefix (lit "mimeType='application/vnd.google-apps.folder' and title='") q with
  | Some r => option_map (Build_query true) (strip_closing_quote r)
  | None =>
      match strip_prefix (lit "mimeType!='application/vnd.google-apps.folder' and title='") q with
      | Some r => option_map (Build_query false) (strip_closing_quote r)
      | None => None
      end
  end.

Definition is_child_of (folderId : jsstring) (e : entry) : bool :=
  existsb (str_eqb folderId) (file_parents e).

Definition matches (folderId : jsstring) (qy : query) (e : entry) : bool :=
  is_child_of folderId e
  && Bool.eqb (str_eqb (file_mimeType e) folder_mimeType) (q_is_folder qy)
  && str_eqb (file_title e) (q_title qy).

(** An identifier no entry of the drive has: longer than all of them. *)
Definition fresh_id (d : list entry) : jsstring :=
  repeat 120 (S (list_max (map (fun e => length (file_id e)) d))).

Definition downloadUrl_of (i : jsstring) : jsstring :=
  lit "https://doc-00-00-docs.googleusercontent.com/docs/" ++ i.

Definition find_entry (i : jsstring) (d : list entry) : option entry :=
  find (fun e => str_eqb (file_id e) i) d.

(** [gapi.client.drive]: undefined until the drive API is loaded. *)
Definition gapi_client_drive : M unit :=
  w <- get ;;
  if drive_loaded (env w) then ret tt
  else throw (TypeError "Cannot read property of undefined (gapi.client.drive)").

(** [gapi.client] and [gapi.auth]: undefined until 'auth:client' is loaded. *)
Definition gapi_client : M unit :=
  w <- get ;;
  if auth_client_loaded (env w) then ret tt
  else throw (TypeError "Cannot read property of undefined (gapi.client)").

(** [gapi.load('auth:client', k)] *)
Definition gapi_load (libs : jsstring) (k : M unit) : M unit :=
  emit (EvGapiLoad libs) ;;
  modify (fun w => with_env (set_auth_client_loaded (env w)) w) ;;
  k.

(** [gapi.auth.authorize({client_id, scope, immediate}, k)]; [k] gets
    whether [authResult && !authResult.error]. *)
Definition gapi_auth_authorize (client_id scope : jsstring) (immediate : bool)
  (k : bool -> M unit) : M unit :=
  gapi_client ;;
  emit (EvAuthorize client_id scope immediate) ;;
  w <- get ;;
  k (grants (env w) immediate).

(** [gapi.client.load(api, version, k)] *)
Definition gapi_client_load (api version : jsstring) (k : M unit) : M unit :=
  gapi_client ;;
  emit (EvClientLoad api version) ;;
  modify (fun w => with_env (set_drive_loaded (env w)) w) ;;
  k.

(** [gapi.auth.getToken().access_token] *)
Definition gapi_auth_getToken_access_token : M jsstring :=
  gapi_client ;;
  w <- get ;;
  match access_token (env w) with
  | Some t => ret t
  | None => throw (TypeError "Cannot read property 'access_token' of null")
  end.

(** [gapi.client.drive.children.list({folderId, q}).execute(k)]; [k] gets
    [findResp.items], undefined ([None]) in an error response. *)
Definition children_list (folderId : option jsstring) (q : jsstring)
  (k : option (list value) -> M unit) : M unit :=
  gapi_client_drive ;;
  match folderId with
  | None => emit (EvChildrenList (lit "undefined") q) ;; k None
  | Some fid =>
      emit (EvChildrenList fid q) ;;
      w <- get ;;
      k (option_map
           (fun qy => map (fun e => VRef (file_id e)) (filter (matches fid qy) (store w)))
           (parse_query q))
  end.

(** [findResp.items.length], [findResp.items[0]]: a TypeError on an
    error response. *)
Definition prop_items (items : option (list value)) : M (list value) :=
  match items with
  | Some l => ret l
  | None => throw (TypeError "Cannot read property 'length' of undefined")
  end.

(** A new entry with one parent. *)
Definition new_entry (i title mimeType parent : jsstring) (data : ArrayBuffer)
  : entry :=
  {| file_id := i; file_title := title; file_mimeType := mimeType;
     file_parents := [parent]; file_downloadUrl := downloadUrl_of i;
     file_content := data |}.

(** [gapi.client.drive.files.insert({resource}).execute(k)] *)
Definition files_insert (title mimeType : jsstring) (parent : option jsstring)
  (k : value -> M unit) : M unit :=
  gapi_client_drive ;;
  match parent with
  | None => emit (EvFilesInsert title mimeType (lit "undefined")) ;; k (VError 400)
  | Some p =>
      emit (EvFilesInsert title mimeType p) ;;
      w <- get ;;
      let e := new_entry (fresh_id (store w)) title mimeType p [] in
      modify (with_store (store w ++ [e])) ;;
      k (VFile e)
  end.

(** [gapi.client.drive.files.get({fileId}).execute(k)] *)
Definition files_get (fileId : option jsstring) (k : value -> M unit) : M unit :=
  gapi_client_drive ;;
  match fileId with
  | None => emit (EvFilesGet (lit "undefined")) ;; k (VError 400)
  | Some i =>
      emit (EvFilesGet i) ;;
      w <- get ;;
      match find_entry i (store w) with
      | Some e => k (VFile e)
      | None => k (VError 404)
      end
  end.

(** The duplicate of an entry, under a new identifier and title. *)
Definition copy_entry (e : entry) (i title : jsstring) : entry :=
  {| file_id := i; file_title := title; file_mimeType := file_mimeType e;
     file_parents := file_parents e; file_downloadUrl := downloadUrl_of i;
     file_content := file_content e |}.

(** [gapi.client.drive.files.copy({fileId, resource: {title}}).execute(k)] *)
Definition files_copy (fileId title : jsstring) (k : value -> M unit) : M unit :=
  gapi_client_drive ;;
  emit (EvFilesCopy fileId title) ;;
  w <- get ;;
  match find_entry fileId (store w) with
  | Some e =>
      let c := copy_entry e (fresh_id (store w)) title in
      modify (with_store (store w ++ [c])) ;;
      k (VFile c)
  | None => k (VError 404)
  end.

(** [gapi.client.drive.files.delete({fileId})], issued: the entry is
    removed for good; the value is the response. *)
Definition files_delete (fileId : option jsstring) : M value :=
  gapi_client_drive ;;
  match fileId with
  | None => emit (EvFilesDelete (lit "undefined")) ;; ret (VError 400)
  | Some i =>
      emit (EvFilesDelete i) ;;
      w <- get ;;
      match find_entry i (store w) with
      | Some _ =>
          modify (with_store (filter (fun e => negb (str_eqb (file_id e) i)) (store w))) ;;
          ret VUndefined
      | None => ret (VError 404)
      end
  end.

(** [gapi.client.drive.permissions.insert({fileId, resource}).execute(k)] *)
Definition permissions_insert (fileId : option jsstring) (grantee type role : jsstring)
  (k : value -> M unit) : M unit :=
  gapi_client_drive ;;
  match fileId with
  | None => emit (EvPermissionsInsert (lit "undefined") grantee type role) ;; k (VError 400)
  | Some i =>
      emit (EvPermissionsInsert i grantee type role) ;;
      w <- get ;;
      match find_entry i (store w) with
      | Some _ => k (VRef i)
      | None => k (VError 404)
      end
  end.

(** [gapi.client.drive.about.get().execute(k)]; [k] gets [resp.name] and
    [resp.user.emailAddress]. *)
Definition about_get (k : jsstring -> jsstring -> M unit) : M unit :=
  gapi_client_drive ;;
  emit (EvAboutGet) ;;
  w <- get ;;
  k (about_name (env w)) (about_email (env w)).

(** [s] without the suffix [suffix], when it ends with it. *)
Definition strip_suffix (suffix s : jsstring) : option jsstring :=
  option_map (@rev N) (strip_prefix (rev suffix) (rev s)).

(** What follows the last blank line (CRLF CRLF) of [s]. *)
Fixpoint after_blank_line (s : jsstring) : option jsstring :=
  match s with
  | [] => None
  | c :: s' =>
      match after_blank_line s' with
      | Some r => Some r
      | None => strip_prefix (CRLF ++ CRLF) s
      end
  end.

(** The boundary a request announces in its Content-Type header. *)
Definition request_boundary (r : request) : option jsstring :=
  match find (fun h => str_eqb (fst h) (lit "Content-Type")) (req_headers r) with
  | Some (_, v) =>
      match strip_prefix (lit "multipart/mixed; boundary=" ++ dquote) v with
      | Some rest => strip_suffix dquote rest
      | None => None
      end
  | None => None
  end.

(** How the service reads the content of a multipart body of the boundary
    [bnd]: the text between the last blank line and the closing delimiter
    is the last part, in base64; its bytes are the content. *)
Definition body_content (bnd body : jsstring) : option ArrayBuffer :=
  match strip_suffix (CRLF ++ lit "--" ++ bnd ++ lit "--") body with
  | Some parts =>
      match after_blank_line parts with
      | Some text => option_map (map to_uint8) (atob text)
      | None => None
      end
  | None => None
  end.

(** The content of an upload request, as the service reads it. *)
Definition request_content (r : request) : option ArrayBuffer :=
  match request_boundary r with
  | Some bnd => body_content bnd (req_body r)
  | None => None
  end.

(** [gapi.client.request(r).execute(k)] on the upload endpoint.  The
    service reads the content from the request as sent
    ([request_content]) and answers 400 when it cannot; the model hands it
    the metadata object next to the request, in place of the JSON text of
    the first part. *)
Definition gapi_client_request (r : request) (meta : metadata)
  (k : value -> M unit) : M unit :=
  gapi_client ;;
  emit (EvRequest r) ;;
  w <- get ;;
  match upload_failure (env w) with
  | Some code => k (VError code)
  | None =>
      match request_content r with
      | None => k (VError 400)
      | Some data =>
          let parent := match meta_parent_id meta with
                        | Some p => p
                        | None => lit "root"
                        end in
          let e := new_entry (fresh_id (store w)) (meta_title meta)
                     (meta_mimeType meta) parent data in
          modify (with_store (store w ++ [e])) ;;
          k (VFile e)
      end
  end.

(** An [XMLHttpRequest] GET with an Authorization header: [onload] gets
    [xhr.responseText], [onerror] runs on a network error. *)
Definition xhr_get (url authorization : jsstring)
  (onload : jsstring -> M unit) (onerror : M unit) : M unit :=
  emit (EvXhrGet url authorization) ;;
  w <- get ;;
  match http_get (env w) url with
  | Some responseText => onload responseText
  | None => onerror
  end.

(** ** fmjs.GDriveFileManager *)

(** The properties of [fmjs.AbstractFileManager.prototype] (all of them
    [fmjs.abstractmethod]) and those assigned to
    [fmjs.GDriveFileManager.prototype], which inherits from it. *)
Definition AbstractFileManager_prototype : list string :=
  ["requestFileSystem"; "isFile"; "readFile"; "writeFile"; "createPath"]%string.

Definition GDriveFileManager_prototype : list string :=
  ["constructor"; "requestFileSystem"; "loadGDriveApi"; "createPath"; "isFile";
   "readFile"; "readFileByID"; "writeFile"; "shareFile"; "getUserInfo"]%string.

(** The fields the constructor sets on the instance, and [authorized]. *)
Definition GDriveFileManager_fields : list string :=
  ["CLIENT_ID"; "SCOPES"; "clientOAuthAPILoaded"; "autorized"; "authorized";
   "driveAPILoaded"; "userInfo"]%string.

(** Is [this.name] defined: on the instance or along its prototype chain.
    Property names are compared exactly (case matters). *)
Definition this_has (name : string) : bool :=
  existsb (String.eqb name)
    (GDriveFileManager_fields ++ GDriveFileManager_prototype
       ++ AbstractFileManager_prototype).

Definition flag (o : option bool) : bool :=
  match o with
  | Some b => b
  | None => false
  end.

Definition loadGDriveApi (callback : callback) : M unit :=
  w <- get ;;
  if flag (authorized (mgr w)) then
    if negb (driveAPILoaded (mgr w)) then
      gapi_client_load (lit "drive") (lit "v2")
        (modify (fun w => with_mgr (set_driveAPILoaded (mgr w)) w) ;;
         callback (VBool true))
    else ret tt
  else console_error (lit "The app has not been authorized").

Definition requestFS (immediate : bool) (callback : callback) : M unit :=
  w <- get ;;
  if negb (flag (authorized (mgr w))) then
    gapi_auth_authorize (CLIENT_ID (mgr w)) (SCOPES (mgr w)) immediate
      (fun authResult_ok =>
         if authResult_ok then
           modify (fun w => with_mgr (set_authorized (mgr w)) w) ;;
           loadGDriveApi callback
         else callback (VBool false))
  else loadGDriveApi callback.

Definition requestFileSystem (immediate : bool) (callback : callback) : M unit :=
  w <- get ;;
  if clientOAuthAPILoaded (mgr w) then requestFS immediate callback
  else gapi_load (lit "auth:client") (requestFS immediate callback).

(** [createFolder(rootResp, folders)] with [folders] given as its first
    element [f0] and the others: both call sites test [folders.length]
    before the call, so the array is never empty. *)
Fixpoint createFolder (callback : option callback) (rootResp : value)
  (f0 : jsstring) (others : list jsstring) {struct others} : M unit :=
  folderId <- prop_id rootResp ;;
  children_list folderId (q_folder_named f0) (fun findResp =>
    items <- prop_items findResp ;;
    match items with
    | [] =>
        files_insert f0 folder_mimeType folderId (fun resp =>
          match others with
          | f1 :: others' => createFolder callback resp f1 others'
          | [] => call_if callback resp
          end)
    | item0 :: _ =>
        match others with
        | f1 :: others' => createFolder callback item0 f1 others'
        | [] => call_if callback item0
        end
    end).

Definition createPath (path : jsstring) (callback : option callback) : M unit :=
  w <- get ;;
  if driveAPILoaded (mgr w) then
    match path2array path with
    | f0 :: others => createFolder callback (VRef (lit "root")) f0 others
    | [] => call_if callback VNull
    end
  else console_error (lit "GDrive Api not loaded").

(** [findEntry(rootResp, entries)], [entries] given as for [createFolder]. *)
Fixpoint findEntry (filePath : jsstring) (callback : option callback)
  (rootResp : value) (e0 : jsstring) (others : list jsstring) {struct others}
  : M unit :=
  folderId <- prop_id rootResp ;;
  children_list folderId
    (match others with
     | [] => q_file_named e0
     | _ :: _ => q_folder_named e0
     end)
    (fun findResp =>
       items <- prop_items findResp ;;
       match items with
       | [] =>
           console_error (lit "File " ++ filePath ++ lit " not found!") ;;
           call_if callback VNull
       | item0 :: _ =>
           match others with
           | e1 :: others' => findEntry filePath callback item0 e1 others'
           | [] =>
               match callback with
               | Some cb =>
                   fileId <- prop_id item0 ;;
                   files_get fileId (fun resp => cb resp)
               | None => ret tt
               end
           end
       end).

Definition isFile (filePath : jsstring) (callback : option callback) : M unit :=
  w <- get ;;
  if driveAPILoaded (mgr w) then
    match path2array filePath with
    | e0 :: others => findEntry filePath callback (VRef (lit "root")) e0 others
    | [] => call_if callback VNull
    end
  else console_error (lit "GDrive Api not loaded").

Definition prop_downloadUrl (v : value) : jsstring :=
  match v with
  | VFile f => file_downloadUrl f
  | _ => lit "undefined"
  end.

Definition prop_title (v : value) : jsstring :=
  match v with
  | VFile f => file_title f
  | _ => lit "undefined"
  end.

Definition id_text (v : value) : jsstring :=
  match v with
  | VFile f => file_id f
  | VRef i => i
  | _ => lit "undefined"
  end.

(** The function [readFile] passes to the existence check. *)
Definition readFile_found (callback : callback) (fileResp : value) : M unit :=
  if truthy fileResp then
    accessToken <- gapi_auth_getToken_access_token ;;
    xhr_get (prop_downloadUrl fileResp) (lit "Bearer " ++ accessToken)
      (fun responseText =>
         match atob responseText with
         | Some binary => callback (VData (str2ab binary))
         | None => throw InvalidCharacterError
         end)
      (console_log (VString (lit "Could not read file: " ++ prop_title fileResp
                               ++ lit " with id: " ++ id_text fileResp)) ;;
       callback VNull)
  else callback VNull.

(** [this.isfile(filePath, k)].  The method of the class is [isFile]; the
    name [isfile] is defined nowhere on the instance or its prototypes, so
    the property is [undefined] and the call throws. *)
Definition this_isfile (filePath : jsstring) (k : callback) : M unit :=
  if this_has "isfile" then isFile filePath (Some k)
  else throw (TypeError "this.isfile is not a function").

Definition readFile (filePath : jsstring) (callback : callback) : M unit :=
  this_isfile filePath (readFile_found callback).

Definition readFileByID (fileID : jsstring) (callback : callback) : M unit :=
  w <- get ;;
  if driveAPILoaded (mgr w) then
    files_copy fileID (lit "tempGDriveFile.tmp") (fun copyResp =>
      readFile (lit "tempGDriveFile.tmp") (fun dataResp =>
        copyId <- prop_id copyResp ;;
        delResp <- files_delete copyId ;;
        callback dataResp ;;
        console_log delResp))
  else console_error (lit "GDrive Api not loaded").

(** The data to write: an ArrayBuffer, with the optional properties [type]
    and [name] that [writeFile] reads from it. *)
Record file_data := {
  data_bytes : ArrayBuffer;
  data_type : option jsstring;
  data_name : option jsstring
}.

(** [x || d] for [x] a string or undefined: the empty string is falsy. *)
Definition or_else (x : option jsstring) (d : jsstring) : jsstring :=
  match x with
  | Some (c :: s) => c :: s
  | _ => d
  end.

Definition boundary : jsstring := lit "-------314159265358979323846".
Definition delimiter : jsstring := CRLF ++ lit "--" ++ boundary ++ CRLF.
Definition close_delim : jsstring := CRLF ++ lit "--" ++ boundary ++ lit "--".

Definition multipartRequestBody (contentType : jsstring) (meta : metadata)
  (base64Data : jsstring) : jsstring :=
  delimiter ++
  (lit "Content-Type: application/json" ++ CRLF ++ CRLF) ++
  JSON_stringify meta ++
  delimiter ++
  lit "Content-Type: " ++ contentType ++ CRLF ++
  (lit "Content-Transfer-Encoding: base64" ++ CRLF) ++
  CRLF ++
  base64Data ++
  close_delim.

Definition upload_request (body : jsstring) : request :=
  {| req_path := lit "/upload/drive/v2/files";
     req_method := lit "POST";
     req_params := [(lit "uploadType", lit "multipart")];
     req_headers :=
       [(lit "Content-Type",
         lit "multipart/mixed; boundary=" ++ dquote ++ boundary ++ dquote)];
     req_body := body |}.

Definition contentType_of (fileData : file_data) : jsstring :=
  or_else (data_type fileData) (lit "application/octet-stream").

Definition name_of (filePath : jsstring) (fileData : file_data) : jsstring :=
  or_else (data_name fileData)
    (substring_from filePath (lastIndexOf slash filePath + 1)).

(** The inner function [writeFile(baseDirResp)]: the callback that inserts
    the new file.  The RangeError of [ab2str] carries the message of the
    engine. *)
Definition writeFile_insert (filePath : jsstring) (fileData : file_data)
  (callback : option callback) (baseDirResp : value) : M unit :=
  let contentType := contentType_of fileData in
  let name := name_of filePath fileData in
  parentId <- prop_id baseDirResp ;;
  let meta := {| meta_title := name; meta_mimeType := contentType;
                 meta_parent_id := parentId |} in
  w <- get ;;
  match ab2str (max_arguments (env w)) (data_bytes fileData) with
  | None => throw (RangeError "Maximum call stack size exceeded")
  | Some binary =>
      match btoa binary with
      | None => throw InvalidCharacterError
      | Some base64Data =>
          gapi_client_request
            (upload_request (multipartRequestBody contentType meta base64Data))
            meta
            (match callback with
             | Some cb => cb
             | None => fun fileResp => console_log fileResp
             end)
      end
  end.

Definition basedir_of (filePath : jsstring) : jsstring :=
  substring filePath 0 (lastIndexOf slash filePath).

Definition writeFile (filePath : jsstring) (fileData : file_data)
  (callback : option callback) : M unit :=
  let basedir := basedir_of filePath in
  createPath basedir (Some (writeFile_insert filePath fileData callback)).

Definition shareFile (filePath userMail : jsstring) (callback : option callback)
  : M unit :=
  this_isfile filePath (fun fileResp =>
    if truthy fileResp then
      fileId <- prop_id fileResp ;;
      permissions_insert fileId userMail (lit "user") (lit "reader")
        (fun resp => call_if callback resp)
    else call_if callback VNull).

Definition getUserInfo (callback : callback) : M unit :=
  w <- get ;;
  match userInfo (mgr w) with
  | Some u => callback (VUser u)
  | None =>
      about_get (fun resp_name resp_user_emailAddress =>
        let userDataObj := {| user_name := resp_name;
                              user_emailAddress := resp_user_emailAddress |} in
        modify (fun w => with_mgr (set_userInfo userDataObj (mgr w)) w) ;;
        callback (VUser userDataObj))
  end.

(** ** fmjs.LocalFileManager

    The backend on the HTML5 file system of the browser (the File API:
    Directories and System).  That file system is the environment: a set of
    directories and of files under a root directory. *)

Module Local.

(** The objects of the File API the manager handles.  A [FileSystem] has
    the properties [name] and [root] and no method; [getDirectory] and
    [getFile] are methods of a [DirectoryEntry]. *)
Inductive fsobject :=
| FileSystem
| DirectoryEntry (path : list jsstring)
| FileEntry (path : list jsstring).

Inductive lvalue :=
| LNull
| LEntry (o : fsobject)
| LFile (path : list jsstring) (content : ArrayBuffer)
| LBuffer (buf : ArrayBuffer).

Inductive levent :=
| LRequestFileSystem
| LGetDirectory (base : list jsstring) (path : jsstring) (create : bool)
| LGetFile (base : list jsstring) (path : jsstring) (create : bool)
| LWrite (path : list jsstring) (data : ArrayBuffer)
| LConsoleLog (msg : jsstring)
| LCallback (v : lvalue).

Record browser := {
  br_available : bool;     (* [window.requestFileSystem || window.webkitRequestFileSystem] *)
  br_granted : bool;       (* the file system is granted *)
  br_BlobBuilder : bool;   (* the global [BlobBuilder] exists *)
  br_dirs : list (list jsstring);               (* the directories below the root *)
  br_files : list (list jsstring * ArrayBuffer) (* the files and their content *)
}.

(** [this.fs] and the browser. *)
Record lworld := {
  fs : option fsobject;
  browser_of : browser;
  ltrace : list levent
}.

Definition L : Type -> Type := run lworld.
Definition lcallback := lvalue -> L unit.

Definition emit (e : levent) : L unit :=
  modify (fun w => {| fs := fs w; browser_of := browser_of w;
                      ltrace := ltrace w ++ [e] |}).

Definition set_fs (o : fsobject) : L unit :=
  modify (fun w => {| fs := Some o; browser_of := browser_of w; ltrace := ltrace w |}).

Definition set_storage (dirs : list (list jsstring))
  (files : list (list jsstring * ArrayBuffer)) : L unit :=
  modify (fun w =>
    {| fs := fs w;
       browser_of := {| br_available := br_available (browser_of w);
                        br_granted := br_granted (browser_of w);
                        br_BlobBuilder := br_BlobBuilder (browser_of w);
                        br_dirs := dirs; br_files := files |};
       ltrace := ltrace w |}).

Definition call_if (cb : option lcallback) (v : lvalue) : L unit :=
  match cb with
  | Some f => f v
  | None => ret tt
  end.

Definition user_cb : lcallback := fun v => emit (LCallback v).

Definition NOT_FOUND_ERR : N := 1.
Definition TYPE_MISMATCH_ERR : N := 11.

(** ['...' + err.code] *)
Definition code_text (code : N) : jsstring :=
  lit (NilEmpty.string_of_uint (N.to_uint code)).

Fixpoint path_eqb (p q : list jsstring) : bool :=
  match p, q with
  | [], [] => true
  | a :: p', b :: q' => str_eqb a b && path_eqb p' q'
  | _, _ => false
  end.

(** The segments the File API makes of a path: empty segments and "." are
    skipped; a path that starts with '/' is taken from the root. *)
Definition api_target (base : list jsstring) (path : jsstring) : list jsstring :=
  let segs := filter (fun seg => negb (str_eqb seg [] || str_eqb seg (lit ".")))
                (split slash path) in
  match path with
  | c :: _ => if c =? slash then segs else base ++ segs
  | [] => base ++ segs
  end.

Definition is_dir (br : browser) (p : list jsstring) : bool :=
  match p with
  | [] => true
  | _ :: _ => existsb (path_eqb p) (br_dirs br)
  end.

Definition file_at (br : browser) (p : list jsstring) : option ArrayBuffer :=
  option_map snd (find (fun f => path_eqb p (fst f)) (br_files br)).

(** [obj.getDirectory(path, {create, exclusive: false}, success, error)] *)
Definition getDirectory (obj : fsobject) (path : jsstring) (create : bool)
  (success : fsobject -> L unit) (error : N -> L unit) : L unit :=
  match obj with
  | DirectoryEntry base =>
      emit (LGetDirectory base path create) ;;
      w <- get ;;
      let br := browser_of w in
      let target := api_target base path in
      if is_dir br target then success (DirectoryEntry target)
      else match file_at br target with
           | Some _ => error TYPE_MISMATCH_ERR
           | None =>
               if create && is_dir br (removelast target) then
                 set_storage (br_dirs br ++ [target]) (br_files br) ;;
                 success (DirectoryEntry target)
               else error NOT_FOUND_ERR
           end
  | _ => throw (TypeError "getDirectory is not a function")
  end.

(** [obj.getFile(path, {create}, success, error)] *)
Definition getFile (obj : option fsobject) (path : jsstring) (create : bool)
  (success : fsobject -> L unit) (error : N -> L unit) : L unit :=
  match obj with
  | Some (DirectoryEntry base) =>
      emit (LGetFile base path create) ;;
      w <- get ;;
      let br := browser_of w in
      let target := api_target base path in
      match file_at br target with
      | Some _ => success (FileEntry target)
      | None =>
          if is_dir br target then error TYPE_MISMATCH_ERR
          else if create && is_dir br (removelast target) then
            set_storage (br_dirs br) (br_files br ++ [(target, [])]) ;;
            success (FileEntry target)
          else error NOT_FOUND_ERR
      end
  | _ => throw (TypeError "Cannot read property 'getFile' of undefined")
  end.

(** [obj.root] *)
Definition prop_root (obj : option fsobject) : option fsobject :=
  match obj with
  | Some FileSystem => Some (DirectoryEntry [])
  | _ => None
  end.

(** [fileEntry.file(success, error)] *)
Definition file_of (fileEntry : fsobject) (success : lvalue -> L unit)
  (error : N -> L unit) : L unit :=
  match fileEntry with
  | FileEntry p =>
      w <- get ;;
      match file_at (browser_of w) p with
      | Some content => success (LFile p content)
      | None => error NOT_FOUND_ERR
      end
  | _ => throw (TypeError "file is not a function")
  end.

(** [fileWriter.write(blob)] on a new writer: the bytes are written from
    position 0, what the file held beyond them stays. *)
Definition write_at_start (p : list jsstring) (data : ArrayBuffer)
  (onwrite : L unit) (onerror : N -> L unit) : L unit :=
  emit (LWrite p data) ;;
  w <- get ;;
  let br := browser_of w in
  match file_at br p with
  | Some old =>
      set_storage (br_dirs br)
        (map (fun f => if path_eqb p (fst f)
                       then (fst f, data ++ skipn (length data) old) else f)
           (br_files br)) ;;
      onwrite
  | None => onerror NOT_FOUND_ERR
  end.

Definition console_log (msg : jsstring) : L unit := emit (LConsoleLog msg).

(** The error handler throws
    ['Could not grant filesystem. Error code: ' + err.code]; the code of
    the refusal is the browser's and is not carried here, so the message
    stops before it. *)
Definition requestFileSystem (callback : L unit) : L unit :=
  w <- get ;;
  if br_available (browser_of w) then
    emit LRequestFileSystem ;;
    if br_granted (browser_of w) then
      set_fs FileSystem ;;
      callback
    else throw (Error "Could not grant filesystem")
  else ret tt.

(** [this.fs ? op() : this.requestFileSystem(op)], where [op] reads
    [self.fs] when it runs. *)
Definition with_fs (op : option fsobject -> L unit) : L unit :=
  w <- get ;;
  match fs w with
  | Some _ => op (fs w)
  | None => requestFileSystem (w' <- get ;; op (fs w'))
  end.

Definition createPath_errorHandler (callback : option lcallback) (code : N) : L unit :=
  console_log (lit "Could not create path. Error code: " ++ code_text code) ;;
  call_if callback LNull.

(** [createFolder(rootDirEntry, folders)]; [folders[0]] of an empty array
    is [undefined], which the File API reads as the name "undefined". *)
Fixpoint createFolder (callback : option lcallback) (rootDirEntry : fsobject)
  (folders : list jsstring) {struct folders} : L unit :=
  match folders with
  | [] =>
      getDirectory rootDirEntry (lit "undefined") true
        (fun dirEntry => call_if callback (LEntry dirEntry))
        (createPath_errorHandler callback)
  | f0 :: others =>
      getDirectory rootDirEntry f0 true
        (fun dirEntry =>
           match others with
           | _ :: _ => createFolder callback dirEntry others
           | [] => call_if callback (LEntry dirEntry)
           end)
        (createPath_errorHandler callback)
  end.

(** [createFolder(self.fs, folders)]: the walk starts from [self.fs], the
    [FileSystem], not from [self.fs.root]. *)
Definition createPath (path : jsstring) (callback : option lcallback) : L unit :=
  with_fs (fun self_fs =>
    let folders := path2array path in
    match self_fs with
    | Some o => createFolder callback o folders
    | None => throw (TypeError "Cannot read property 'getDirectory' of null")
    end).

Definition isFile (filePath : jsstring) (callback : lcallback) : L unit :=
  with_fs (fun self_fs =>
    let errorHandler code :=
      console_log (lit "File not found. Error code: " ++ code_text code) ;;
      callback LNull in
    getFile (prop_root self_fs) filePath false
      (fun fileEntry => file_of fileEntry (fun fileObj => callback fileObj) errorHandler)
      errorHandler).

Definition readFile (filePath : jsstring) (callback : lcallback) : L unit :=
  with_fs (fun self_fs =>
    let errorHandler code :=
      console_log (lit "Could not read file. Error code: " ++ code_text code) ;;
      callback LNull in
    getFile (prop_root self_fs) filePath false
      (fun fileEntry =>
         file_of fileEntry
           (fun fileObj =>
              match fileObj with
              | LFile _ content => callback (LBuffer content)
              | _ => callback LNull
              end)
           errorHandler)
      errorHandler).

Definition writeFile_errorHandler (callback : option lcallback) (code : N) : L unit :=
  console_log (lit "Could not write file. Error code: " ++ code_text code) ;;
  call_if callback LNull.

(** The inner function [writeFile()]. *)
Definition writeFile_write (filePath : jsstring) (fileData : ArrayBuffer)
  (callback : option lcallback) : L unit :=
  w <- get ;;
  getFile (prop_root (fs w)) filePath true
    (fun fileEntry =>
       match fileEntry with
       | FileEntry p =>
           w <- get ;;
           if br_BlobBuilder (browser_of w) then
             write_at_start p fileData
               (match callback with
                | Some cb =>
                    file_of fileEntry (fun fileObj => cb fileObj)
                      (writeFile_errorHandler callback)
                | None => ret tt
                end)
               (fun _ =>
                  console_log (lit "Could not write file. Error code: [object FileError]") ;;
                  call_if callback LNull)
           else throw (ReferenceError "BlobBuilder is not defined")
       | _ => throw (TypeError "createWriter is not a function")
       end)
    (writeFile_errorHandler callback).

(** [self.fs.getDirectory(basedir, ...)]: again on the [FileSystem]. *)
Definition writeFile (filePath : jsstring) (fileData : ArrayBuffer)
  (callback : option lcallback) : L unit :=
  with_fs (fun self_fs =>
    let basedir := substring filePath 0 (lastIndexOf slash filePath) in
    match self_fs with
    | Some o =>
        getDirectory o basedir false
          (fun _ => writeFile_write filePath fileData callback)
          (fun code =>
             if code =? NOT_FOUND_ERR then
               createPath basedir (Some (fun _ => writeFile_write filePath fileData callback))
             else writeFile_errorHandler callback code)
    | None => throw (TypeError "Cannot read property 'getDirectory' of null")
    end).

(** The values the caller's callback was called with, in order. *)
Fixpoint lcallbacks (t : list levent) : list lvalue :=
  match t with
  | [] => []
  | LCallback v :: t' => v :: lcallbacks t'
  | _ :: t' => lcallbacks t'
  end.

(** [this.fs] is [null] or the [FileSystem] that [requestFileSystem] stored. *)
Definition fs_as_granted (w : lworld) : Prop :=
  fs w = None \/ fs w = Some FileSystem.

End Local.

(** * Observations and specification-side definitions *)

(** ** Traces and states *)

(** The world after one more event. *)
Definition logged (e : event) (w : world) : world :=
  with_trace (trace w ++ [e]) w.

(** The values the caller's callback was called with, in order. *)
Fixpoint callbacks (t : list event) : list value :=
  match t with
  | [] => []
  | EvCallback v :: t' => v :: callbacks t'
  | _ :: t' => callbacks t'
  end.

(** The upload requests sent, in order. *)
Fixpoint requests (t : list event) : list request :=
  match t with
  | [] => []
  | EvRequest r :: t' => r :: requests t'
  | _ :: t' => requests t'
  end.

(** The folders inserted, in order. *)
Fixpoint inserts (t : list event) : list (jsstring * jsstring) :=
  match t with
  | [] => []
  | EvFilesInsert title _ parent :: t' => (parent, title) :: inserts t'
  | _ :: t' => inserts t'
  end.

(** The backend is ready: the manager has loaded the drive API and the
    client library indeed has it. *)
Record ready (w : world) : Prop := {
  ready_flag : driveAPILoaded (mgr w) = true;
  ready_drive : drive_loaded (env w) = true;
  ready_client : auth_client_loaded (env w) = true
}.

Definition with_drive (d : list entry) (evs : list event) (w : world) : world :=
  with_store d (with_trace (trace w ++ evs) w).

(** ** Path resolution on the drive *)

Definition id_of (v : value) : option jsstring :=
  match v with
  | VRef i => Some i
  | VFile f => Some (file_id f)
  | _ => None
  end.

(** The folders named [name] among the children of [fid], in the order of
    the drive. *)
Definition folders_named (fid name : jsstring) (d : list entry) : list entry :=
  filter (matches fid (Build_query true name)) d.

Definition new_folder (d : list entry) (parent name : jsstring) : entry :=
  new_entry (fresh_id d) name folder_mimeType parent [].

(** What a walk of [createFolder] does to a drive, in direct style: the
    drive afterwards, the value for the callback and the requests made. *)
Fixpoint mkdirs (d : list entry) (rid f0 : jsstring) (others : list jsstring)
  {struct others} : list entry * value * list event :=
  let listing := EvChildrenList rid (q_folder_named f0) in
  match folders_named rid f0 d with
  | [] =>
      let e := new_folder d rid f0 in
      let insertion := EvFilesInsert f0 folder_mimeType rid in
      match others with
      | [] => (d ++ [e], VFile e, [listing; insertion])
      | f1 :: others' =>
          let '(d', v, evs) := mkdirs (d ++ [e]) (file_id e) f1 others' in
          (d', v, listing :: insertion :: evs)
      end
  | item0 :: _ =>
      match others with
      | [] => (d, VRef (file_id item0), [listing])
      | f1 :: others' =>
          let '(d', v, evs) := mkdirs d (file_id item0) f1 others' in
          (d', v, listing :: evs)
      end
  end.

(** What the walk finds when every level exists: the first match at each
    level. *)
Fixpoint resolve (d : list entry) (rid f0 : jsstring) (others : list jsstring)
  {struct others} : option jsstring :=
  match folders_named rid f0 d with
  | [] => None
  | item0 :: _ =>
      match others with
      | [] => Some (file_id item0)
      | f1 :: others' => resolve d (file_id item0) f1 others'
      end
  end.

(** The listings of a walk that finds every level. *)
Fixpoint listings (d : list entry) (rid f0 : jsstring) (others : list jsstring)
  {struct others} : list event :=
  EvChildrenList rid (q_folder_named f0) ::
  match folders_named rid f0 d, others with
  | item0 :: _, f1 :: others' => listings d (file_id item0) f1 others'
  | _, _ => []
  end.

(** The files (entries that are not folders) named [name] among the
    children of [fid], in the order of the drive. *)
Definition files_named (fid name : jsstring) (d : list entry) : list entry :=
  filter (matches fid (Build_query false name)) d.

(** What the walk of [findEntry] finds: the first folder at each level but
    the last, the first file at the last. *)
Fixpoint locate (d : list entry) (rid e0 : jsstring) (others : list jsstring)
  {struct others} : option entry :=
  match others with
  | [] => hd_error (files_named rid e0 d)
  | e1 :: others' =>
      match folders_named rid e0 d with
      | [] => None
      | item0 :: _ => locate d (file_id item0) e1 others'
      end
  end.

(** The listings of that walk. *)
Fixpoint locate_listings (d : list entry) (rid e0 : jsstring)
  (others : list jsstring) {struct others} : list event :=
  match others with
  | [] => [EvChildrenList rid (q_file_named e0)]
  | e1 :: others' =>
      EvChildrenList rid (q_folder_named e0) ::
      match folders_named rid e0 d with
      | [] => []
      | item0 :: _ => locate_listings d (file_id item0) e1 others'
      end
  end.

(** The message of [findEntry] when nothing matches. *)
Definition not_found_message (filePath : jsstring) : jsstring :=
  lit "File " ++ filePath ++ lit " not found!".

(** No two entries of the drive have the same identifier. *)
Definition unique_ids (d : list entry) : Prop := NoDup (map file_id d).


(** ** Buffers *)

(** The round trip of C8 at a buffer, in an engine of argument limit
    [limit]: [ab2str] returns, and [str2ab] of its string is the buffer. *)
Definition round_trip_identity (limit : N) (b : ArrayBuffer) : Prop :=
  option_map str2ab (ab2str limit b) = Some b.

(** ** Uploads *)

(** The wire format of the upload as the specification spells it, for a
    boundary, the JSON text of the metadata, a content type and the base64
    text of the content. *)
Definition spec_multipart_body (bnd json mime b64 : jsstring) : jsstring :=
  (CRLF ++ lit "--" ++ bnd ++ CRLF)
  ++ (lit "Content-Type: application/json" ++ CRLF ++ CRLF)
  ++ json
  ++ (CRLF ++ lit "--" ++ bnd ++ CRLF)
  ++ (lit "Content-Type: " ++ mime ++ CRLF)
  ++ (lit "Content-Transfer-Encoding: base64" ++ CRLF ++ CRLF)
  ++ b64
  ++ (CRLF ++ lit "--" ++ bnd ++ lit "--").

Definition spec_content_type_header (bnd : jsstring) : jsstring * jsstring :=
  (lit "Content-Type", lit "multipart/mixed; boundary=" ++ dquote ++ bnd ++ dquote).

(** The base64 text of a sequence of bytes. *)
Definition base64 (b : ArrayBuffer) : jsstring := b64_encode (map Byte.to_N b).

(** The metadata [writeFile] sends for a file under the folder [parent]. *)
Definition metadata_of (filePath : jsstring) (fileData : file_data)
  (parent : jsstring) : metadata :=
  {| meta_title := name_of filePath fileData;
     meta_mimeType := contentType_of fileData;
     meta_parent_id := Some parent |}.

(** The request [writeFile] sends for a file under the folder [parent]. *)
Definition request_of (filePath : jsstring) (fileData : file_data)
  (parent : jsstring) : request :=
  upload_request
    (multipartRequestBody (contentType_of fileData)
       (metadata_of filePath fileData parent)
       (b64_encode (fromCharCode_apply (data_bytes fileData)))).

(** The record the service makes of an upload that succeeds. *)
Definition uploaded (d : list entry) (filePath : jsstring) (fileData : file_data)
  (parent : jsstring) : entry :=
  new_entry (fresh_id d) (name_of filePath fileData) (contentType_of fileData)
    parent (data_bytes fileData).

(** The request has the wire format of the specification. *)
Definition wire_format (filePath : jsstring) (fileData : file_data) (r : request)
  : Prop :=
  exists parent,
    req_body r
    = spec_multipart_body boundary
        (JSON_stringify (metadata_of filePath fileData parent))
        (contentType_of fileData) (base64 (data_bytes fileData)) /\
    req_headers r = [spec_content_type_header boundary].


(** ** Sample worlds *)

Definition demo_env : gapi_env :=
  {| max_arguments := 65536;
     auth_client_loaded := true;
     drive_loaded := true;
     grants := fun _ => true;
     access_token := Some (lit "ya29.token");
     upload_failure := None;
     about_name := lit "Ann";
     about_email := lit "ann@example.org";
     http_get := fun _ => None |}.

(** A manager after a successful handshake, on an empty drive. *)
Definition demo_world : world :=
  {| mgr := set_driveAPILoaded (set_authorized (new_GDriveFileManager (lit "client")));
     env := demo_env;
     store := [];
     trace := [] |}.


(** The same after the first handshake, had it also set
    [clientOAuthAPILoaded]. *)
Definition demo_world_session : world :=
  with_mgr
    {| CLIENT_ID := lit "client";
       SCOPES := lit "https://www.googleapis.com/auth/drive.file";
       clientOAuthAPILoaded := true;
       autorized := false;
       authorized := Some true;
       driveAPILoaded := true;
       userInfo := None |}
    demo_world.

(** A manager before any handshake. *)
Definition demo_world_cold : world :=
  {| mgr := new_GDriveFileManager (lit "client");
     env := {| max_arguments := 65536;
               auth_client_loaded := false;
               drive_loaded := false;
               grants := fun _ => true;
               access_token := None;
               upload_failure := None;
               about_name := lit "Ann";
               about_email := lit "ann@example.org";
               http_get := fun _ => None |};
     store := [];
     trace := [] |}.

Definition demo_data : file_data :=
  {| data_bytes := ["h"%byte; "i"%byte; x00; xff];
     data_type := None;
     data_name := None |}.

(** A buffer of 65537 bytes: one more than the engine of the sample
    worlds accepts as arguments. *)
Definition demo_big_data : file_data :=
  {| data_bytes := repeat x00 (N.to_nat 65537);
     data_type := None;
     data_name := None |}.

(** A drive that holds one file, "report.pdf", in the root folder. *)
Definition demo_report : entry :=
  new_entry (lit "0B-report") (lit "report.pdf") (lit "application/pdf")
    (lit "root") ["%"%byte; "P"%byte; "D"%byte; "F"%byte].

Definition demo_world_with_report : world := with_store [demo_report] demo_world.

(** The scenario of a first use, run on the model: a silent handshake is
    refused, an interactive one is granted, the path is created, the file
    is written under it with its leaf name, and the existence check then
    finds the record the write returned. *)
Definition demo_world_first_use : world :=
  {| mgr := new_GDriveFileManager (lit "client");
     env := {| max_arguments := 65536;
               auth_client_loaded := false;
               drive_loaded := false;
               grants := fun immediate => negb immediate;
               access_token := Some (lit "ya29.token");
               upload_failure := None;
               about_name := lit "Ann";
               about_email := lit "ann@example.org";
               http_get := fun _ => None |};
     store := [];
     trace := [] |}.

Definition first_use : M unit :=
  requestFileSystem true user_cb ;;
  requestFileSystem false user_cb ;;
  createPath (lit "/app/data") (Some user_cb) ;;
  writeFile (lit "/app/data/test.bin") demo_data (Some user_cb) ;;
  isFile (lit "/app/data/test.bin") (Some user_cb).

(** A service that serves the content of "report.pdf", in base64, at its
    download address. *)
Definition demo_world_serving : world :=
  with_env
    {| max_arguments := 65536;
       auth_client_loaded := true;
       drive_loaded := true;
       grants := fun _ => true;
       access_token := Some (lit "ya29.token");
       upload_failure := None;
       about_name := lit "Ann";
       about_email := lit "ann@example.org";
       http_get := fun url =>
                     if str_eqb url (file_downloadUrl demo_report)
                     then Some (b64_encode (fromCharCode_apply (file_content demo_report)))
                     else None |}
    demo_world_with_report.

(** A browser with the file API, whose file system holds the directory
    "docs" and the file "docs/a.txt". *)
Definition demo_browser : Local.browser :=
  {| Local.br_available := true;
     Local.br_granted := true;
     Local.br_BlobBuilder := true;
     Local.br_dirs := [[lit "docs"]];
     Local.br_files := [([lit "docs"; lit "a.txt"], ["h"%byte; "i"%byte])] |}.

(** A local manager before it has asked for the file system. *)
Definition demo_local_cold : Local.lworld :=
  {| Local.fs := None; Local.browser_of := demo_browser; Local.ltrace := [] |}.

(** A local manager that holds the file system. *)
Definition demo_local : Local.lworld :=
  {| Local.fs := Some Local.FileSystem; Local.browser_of := demo_browser;
     Local.ltrace := [] |}.

(** A local manager in a browser without the file API. *)
Definition demo_local_no_api : Local.lworld :=
  {| Local.fs := None;
     Local.browser_of :=
       {| Local.br_available := false;
          Local.br_granted := false;
          Local.br_BlobBuilder := false;
          Local.br_dirs := [];
          Local.br_files := [] |};
     Local.ltrace := [] |}.

(** A local manager in a browser that refuses the file system. *)
Definition demo_local_refused : Local.lworld :=
  {| Local.fs := None;
     Local.browser_of :=
       {| Local.br_available := true;
          Local.br_granted := false;
          Local.br_BlobBuilder := true;
          Local.br_dirs := [];
          Local.br_files := [] |};
     Local.ltrace := [] |}.

(** * Properties *)

(** ** Strings *)

Lemma str_eqb_eq : forall s t, str_eqb s t = true <-> s = t.
Proof.
  induction s as [|c s IH]; destruct t as [|d t]; simpl; split; intro H;
    try reflexivity; try discriminate.
  - apply andb_true_iff in H as [Hc Hs].
    apply N.eqb_eq in Hc. apply IH in Hs. congruence.
  - injection H as -> ->. rewrite N.eqb_refl. simpl. now apply IH.
Qed.

Lemma str_eqb_refl : forall s, str_eqb s s = true.
Proof. intro s. now apply str_eqb_eq. Qed.

Lemma split_not_nil : forall sep s, split sep s <> [].
Proof.
  intros sep s. destruct s as [|c s]; simpl.
  - discriminate.
  - destruct (c =? sep); [discriminate|].
    destruct (split sep s); discriminate.
Qed.

(** Joining the pieces of a split gives the string back. *)
Lemma join_split : forall sep s, join sep (split sep s) = s.
Proof.
  intros sep. induction s as [|c s IH]; [reflexivity|].
  cbn [split]. pose proof (split_not_nil sep s) as Hnn.
  destruct (N.eqb_spec c sep) as [->|Hne];
    destruct (split sep s) as [|seg segs]; try contradiction.
  - change (join sep ([] :: seg :: segs)) with (sep :: join sep (seg :: segs)).
    now rewrite IH.
  - destruct segs as [|seg' segs]; simpl in *; now rewrite <- IH.
Qed.

(** No piece of a split contains the separator. *)
Lemma split_sep_free : forall sep s, Forall (fun seg => ~ In sep seg) (split sep s).
Proof.
  intros sep. induction s as [|c s IH]; simpl.
  - constructor; [intros []|constructor].
  - destruct (N.eqb_spec c sep) as [->|Hne].
    + constructor; [intros []|assumption].
    + destruct (split sep s) as [|seg segs].
      * constructor; [|constructor]. intros [H|[]]. congruence.
      * inversion IH as [|? ? Hseg Hsegs]; subst.
        constructor; [|assumption].
        intros [H|H]; [congruence|contradiction].
Qed.

Lemma split_sep_free_string : forall sep s, ~ In sep s -> split sep s = [s].
Proof.
  intros sep. induction s as [|c s IH]; simpl; intro Hn; [reflexivity|].
  destruct (N.eqb_spec c sep) as [->|Hne].
  - exfalso. apply Hn. now left.
  - rewrite IH; [reflexivity|]. intro H. apply Hn. now right.
Qed.

Lemma split_app_sep : forall sep a b,
  split sep (a ++ sep :: b) = split sep a ++ split sep b.
Proof.
  intros sep a b. induction a as [|c a IH]; simpl.
  - now rewrite N.eqb_refl.
  - destruct (c =? sep).
    + now rewrite IH.
    + rewrite IH. pose proof (split_not_nil sep a) as Hnn.
      destruct (split sep a); [contradiction|reflexivity].
Qed.

(** Splitting is the inverse of joining pieces that are free of the
    separator: nothing is collapsed, empty pieces included. *)
Lemma split_join : forall sep seg segs,
  Forall (fun x => ~ In sep x) (seg :: segs) ->
  split sep (join sep (seg :: segs)) = seg :: segs.
Proof.
  intros sep seg segs. revert seg.
  induction segs as [|seg' segs IH]; intros seg H.
  - simpl. apply split_sep_free_string. now inversion H.
  - change (join sep (seg :: seg' :: segs)) with (seg ++ sep :: join sep (seg' :: segs)).
    rewrite split_app_sep. inversion H as [|? ? Hseg Hrest]; subst.
    rewrite split_sep_free_string by assumption.
    now rewrite IH.
Qed.

Lemma lastIndexOf_absent : forall c s, ~ In c s -> lastIndexOf c s = (-1)%Z.
Proof.
  intros c. induction s as [|x s IH]; simpl; intro Hn; [reflexivity|].
  rewrite IH by (intro H; apply Hn; now right). simpl.
  destruct (N.eqb_spec x c) as [->|Hne]; [|reflexivity].
  exfalso. apply Hn. now left.
Qed.

Lemma lastIndexOf_last : forall c a b,
  ~ In c b -> lastIndexOf c (a ++ c :: b) = Z.of_nat (length a).
Proof.
  intros c a b Hn. induction a as [|x a IH].
  - simpl. rewrite lastIndexOf_absent by assumption. simpl.
    now rewrite N.eqb_refl.
  - change ((x :: a) ++ c :: b) with (x :: (a ++ c :: b)).
    cbn [lastIndexOf]. rewrite IH.
    destruct (Z.leb_spec 0 (Z.of_nat (length a))); [|lia].
    cbn [length]. lia.
Qed.

Lemma substring_prefix : forall a b,
  substring (a ++ b) 0 (Z.of_nat (length a)) = a.
Proof.
  intros a b. unfold substring, clamp. simpl.
  rewrite Nat2Z.id, length_app.
  replace (Nat.min (length a) (length a + length b)) with (length a) by lia.
  simpl. rewrite Nat.sub_0_r.
  rewrite firstn_app, firstn_all, Nat.sub_diag. simpl. apply app_nil_r.
Qed.

Lemma substring_to_negative : forall s, substring s 0 (-1) = [].
Proof. intro s. unfold substring, clamp. simpl. reflexivity. Qed.

(** ** fmjs.path2array *)

Lemma path2array_eq_spec : forall p, path2array p = spec_pathToSegments p.
Proof.
  intro p. unfold path2array, spec_pathToSegments, first_is_dot_or_empty, slice1.
  pose proof (split_not_nil slash p) as Hnn.
  destruct (split slash p) as [|first others]; [contradiction|].
  simpl nth_error. cbv iota.
  rewrite orb_comm.
  change (lit "") with (@nil N).
  destruct (str_eqb first [] || str_eqb first (lit ".")); reflexivity.
Qed.

(** The path of a sequence of slash-free segments is read back as that
    sequence, less a first segment that is empty or ".". *)
Lemma path2array_join : forall first others,
  Forall (fun seg => ~ In slash seg) (first :: others) ->
  path2array (join slash (first :: others)) =
    if str_eqb first [] || str_eqb first (lit ".") then others
    else first :: others.
Proof.
  intros first others H. rewrite path2array_eq_spec.
  unfold spec_pathToSegments. now rewrite split_join.
Qed.

(** C2.  For every string [p], [path2array p] is the split of [p] on '/'
    less exactly its first element when that element is empty or ".";
    every other element is kept, in order, empty ones included.  The split
    is the one that joins back to [p] with pieces free of '/'. *)
Theorem path2array_drops_one_leading_segment :
  (forall p, path2array p = spec_pathToSegments p) /\
  (forall p, join slash (split slash p) = p
             /\ Forall (fun seg => ~ In slash seg) (split slash p)) /\
  path2array (lit "/a/b/c") = [lit "a"; lit "b"; lit "c"] /\
  path2array (lit "a/b") = [lit "a"; lit "b"] /\
  path2array (lit "./a//b") = [lit "a"; lit ""; lit "b"] /\
  path2array (lit "//a") = [lit ""; lit "a"].
Proof.
  split; [exact path2array_eq_spec|].
  split; [intro p; split; [apply join_split|apply split_sep_free]|].
  repeat split; reflexivity.
Qed.

(** ** fmjs.ab2str and fmjs.str2ab *)

Lemma store_at_middle : forall (done_ : list byte) v rest b,
  store_at (done_ ++ b :: rest) (length done_) v = done_ ++ v :: rest.
Proof.
  induction done_ as [|d done_ IH]; intros; simpl; [reflexivity|].
  now rewrite IH.
Qed.

(** The loop fills the buffer from left to right. *)
Lemma str2ab_loop_fills : forall todo seen,
  str2ab_loop (seen ++ todo) (length todo) (length seen)
    (map to_uint8 seen ++ repeat x00 (length todo))
  = map to_uint8 (seen ++ todo).
Proof.
  induction todo as [|c todo IH]; intro seen.
  - simpl. now rewrite !app_nil_r.
  - cbn [length str2ab_loop repeat].
    replace (length seen) with (length (map to_uint8 seen)) at 2
      by apply length_map.
    rewrite store_at_middle.
    unfold charCodeAt. rewrite app_nth2, Nat.sub_diag by lia. cbn [nth].
    specialize (IH (seen ++ [c])).
    rewrite <- app_assoc in IH. simpl in IH.
    rewrite length_app, map_app, <- app_assoc in IH. simpl in IH.
    replace (length seen + 1)%nat with (S (length seen)) in IH by lia.
    exact IH.
Qed.

Lemma str2ab_map : forall str, str2ab str = map to_uint8 str.
Proof.
  intro str. unfold str2ab. exact (str2ab_loop_fills str []).
Qed.

Lemma to_uint8_fromCharCode : forall b, to_uint8 (fromCharCode (Byte.to_N b)) = b.
Proof.
  intro b. unfold to_uint8, fromCharCode.
  pose proof (Byte.to_N_bounded b) as Hb.
  rewrite (N.mod_small (Byte.to_N b) 65536) by lia.
  rewrite N.mod_small by lia.
  now rewrite Byte.of_to_N.
Qed.

Lemma str2ab_fromCharCode_apply : forall b : ArrayBuffer,
  str2ab (fromCharCode_apply b) = b.
Proof.
  intro b. rewrite str2ab_map. unfold fromCharCode_apply. rewrite map_map.
  induction b as [|x b IH]; simpl; [reflexivity|].
  now rewrite to_uint8_fromCharCode, IH.
Qed.

Lemma fromCharCode_apply_to_N : forall b, fromCharCode_apply b = map Byte.to_N b.
Proof.
  intro b. unfold fromCharCode_apply. apply map_ext. intro x. unfold fromCharCode.
  pose proof (Byte.to_N_bounded x). apply N.mod_small. lia.
Qed.

Lemma fromCharCode_apply_latin1 : forall b,
  forallb (fun c => c <=? 255) (fromCharCode_apply b) = true.
Proof.
  intro b. unfold fromCharCode_apply. apply forallb_forall. intros c Hc.
  apply in_map_iff in Hc as [x [<- _]].
  pose proof (Byte.to_N_bounded x). unfold fromCharCode.
  rewrite N.mod_small by lia. apply N.leb_le. lia.
Qed.

Lemma btoa_fromCharCode_apply : forall b,
  btoa (fromCharCode_apply b) = Some (b64_encode (fromCharCode_apply b)).
Proof. intro b. unfold btoa. now rewrite fromCharCode_apply_latin1. Qed.

(** Within the limit of the engine [ab2str] returns; past it, it throws. *)
Lemma ab2str_within : forall limit b,
  N.of_nat (length b) <= limit -> ab2str limit b = Some (fromCharCode_apply b).
Proof.
  intros limit b Hfits. unfold ab2str.
  now rewrite (proj2 (N.leb_le _ _) Hfits).
Qed.

Lemma ab2str_past : forall limit b,
  limit < N.of_nat (length b) -> ab2str limit b = None.
Proof.
  intros limit b Hbig. unfold ab2str.
  now rewrite (proj2 (N.leb_gt _ _) Hbig).
Qed.

(** C8 (what the code does).  For every sequence of bytes [b] that
    [apply] accepts as arguments, [ab2str b] is a string whose code units
    are the values of the bytes, and [str2ab] of it is [b] again.  For a
    longer sequence [ab2str] throws: the round trip does not return. *)
Theorem str2ab_ab2str : forall limit (b : ArrayBuffer),
  (N.of_nat (length b) <= limit ->
   round_trip_identity limit b /\
   ab2str limit b = Some (map Byte.to_N b)) /\
  (limit < N.of_nat (length b) ->
   ab2str limit b = None /\
   ~ round_trip_identity limit b).
Proof.
  intros limit b. unfold round_trip_identity. split.
  - intro Hfits. rewrite (ab2str_within _ _ Hfits). cbn [option_map].
    now rewrite str2ab_fromCharCode_apply, fromCharCode_apply_to_N.
  - intro Hbig. rewrite (ab2str_past _ _ Hbig). split; [reflexivity|discriminate].
Qed.

(** ** Base64 *)

Lemma list_ind3 : forall (P : list N -> Prop),
  P [] ->
  (forall a, P [a]) ->
  (forall a b, P [a; b]) ->
  (forall a b c l, P l -> P (a :: b :: c :: l)) ->
  forall l, P l.
Proof.
  intros P H0 H1 H2 H3.
  assert (H : forall l, P l /\ (forall a, P (a :: l)) /\ (forall a b, P (a :: b :: l))).
  { induction l as [|x l (IHa & IHb & IHc)].
    - repeat split; auto.
    - repeat split; auto. }
  intro l. apply H.
Qed.

(** Each of the 64 characters of the alphabet stands for its own index,
    and is neither the padding character nor white space. *)
Lemma sextet_facts : forall i,
  i < 64 ->
  index_of (b64_char i) b64_alphabet = Some i /\
  (b64_char i =? b64_pad) = false /\
  is_ascii_space (b64_char i) = false.
Proof.
  intros i Hi.
  assert (Hall : forallb
                   (fun i => match index_of (b64_char i) b64_alphabet with
                             | Some j => j =? i
                             | None => false
                             end
                             && negb (b64_char i =? b64_pad)
                             && negb (is_ascii_space (b64_char i)))
                   (map N.of_nat (seq 0 64)) = true) by (vm_compute; reflexivity).
  rewrite forallb_forall in Hall. specialize (Hall i).
  assert (Hin : In i (map N.of_nat (seq 0 64))).
  { apply in_map_iff. exists (N.to_nat i). split; [apply N2Nat.id|].
    apply in_seq. lia. }
  specialize (Hall Hin).
  apply andb_true_iff in Hall as [Hall Hspace].
  apply andb_true_iff in Hall as [Hidx Hpad].
  destruct (index_of (b64_char i) b64_alphabet) as [j|]; [|discriminate].
  apply N.eqb_eq in Hidx. subst j.
  split; [reflexivity|]. split.
  - now apply negb_true_iff in Hpad.
  - now apply negb_true_iff in Hspace.
Qed.

Lemma sextet_bounds : forall a b c,
  a < 256 -> b < 256 -> c < 256 ->
  a / 4 < 64 /\ (a mod 4) * 16 + b / 16 < 64 /\
  (b mod 16) * 4 + c / 64 < 64 /\ c mod 64 < 64 /\
  (a mod 4) * 16 < 64 /\ (b mod 16) * 4 < 64.
Proof.
  intros a b c Ha Hb Hc.
  pose proof (N.mod_upper_bound a 4). pose proof (N.mod_upper_bound b 16).
  pose proof (N.mod_upper_bound c 64).
  assert (a / 4 < 64) by (apply N.Div0.div_lt_upper_bound; lia).
  assert (b / 16 < 16) by (apply N.Div0.div_lt_upper_bound; lia).
  assert (c / 64 < 4) by (apply N.Div0.div_lt_upper_bound; lia).
  lia.
Qed.

Lemma sextet_decode : forall a b c,
  a < 256 -> b < 256 -> c < 256 ->
  (a / 4) * 4 + ((a mod 4) * 16 + b / 16) / 16 = a /\
  (((a mod 4) * 16 + b / 16) mod 16) * 16 + ((b mod 16) * 4 + c / 64) / 4 = b /\
  (((b mod 16) * 4 + c / 64) mod 4) * 64 + c mod 64 = c.
Proof.
  intros a b c Ha Hb Hc.
  pose proof (N.mod_upper_bound a 4). pose proof (N.mod_upper_bound b 16).
  assert (Hb16 : b / 16 < 16) by (apply N.Div0.div_lt_upper_bound; lia).
  assert (Hc64 : c / 64 < 4) by (apply N.Div0.div_lt_upper_bound; lia).
  assert (H1 : ((a mod 4) * 16 + b / 16) / 16 = a mod 4).
  { rewrite N.add_comm, N.div_add by lia. rewrite (N.div_small (b / 16) 16) by lia.
    reflexivity. }
  assert (H2 : ((a mod 4) * 16 + b / 16) mod 16 = b / 16).
  { rewrite N.add_comm, N.Div0.mod_add. apply N.mod_small. lia. }
  assert (H3 : ((b mod 16) * 4 + c / 64) / 4 = b mod 16).
  { rewrite N.add_comm, N.div_add by lia. rewrite (N.div_small (c / 64) 4) by lia.
    reflexivity. }
  assert (H4 : ((b mod 16) * 4 + c / 64) mod 4 = c / 64).
  { rewrite N.add_comm, N.Div0.mod_add. apply N.mod_small. lia. }
  rewrite H1, H2, H3, H4.
  pose proof (N.div_mod a 4). pose proof (N.div_mod b 16). pose proof (N.div_mod c 64).
  lia.
Qed.

Lemma b64_encode_shape : forall bs,
  b64_encode bs = [] \/
  exists x1 x2 x3 x4 rest, b64_encode bs = x1 :: x2 :: x3 :: x4 :: rest.
Proof.
  intros [|a [|b [|c bs]]]; cbn [b64_encode]; [now left| | |];
    right; repeat eexists.
Qed.

Lemma strip_padding_group : forall c1 c2 c3 c4 text,
  (c4 =? b64_pad) = false ->
  (text = [] \/ exists x1 x2 x3 x4 rest, text = x1 :: x2 :: x3 :: x4 :: rest) ->
  strip_padding (c1 :: c2 :: c3 :: c4 :: text)
  = c1 :: c2 :: c3 :: c4 :: strip_padding text.
Proof.
  intros c1 c2 c3 c4 text Hc4 [->|(x1 & x2 & x3 & x4 & rest & ->)].
  - cbn [strip_padding]. now rewrite Hc4.
  - reflexivity.
Qed.

Lemma sextets_group : forall c1 c2 c3 c4 v1 v2 v3 v4 text,
  index_of c1 b64_alphabet = Some v1 ->
  index_of c2 b64_alphabet = Some v2 ->
  index_of c3 b64_alphabet = Some v3 ->
  index_of c4 b64_alphabet = Some v4 ->
  sextets (c1 :: c2 :: c3 :: c4 :: text)
  = option_map (fun vs => v1 :: v2 :: v3 :: v4 :: vs) (sextets text).
Proof.
  intros c1 c2 c3 c4 v1 v2 v3 v4 text H1 H2 H3 H4.
  cbn [sextets]. rewrite H1, H2, H3, H4.
  destruct (sextets text); reflexivity.
Qed.

Lemma mod4_add4 : forall n, Nat.modulo (S (S (S (S n)))) 4 = Nat.modulo n 4.
Proof.
  intro n. replace (S (S (S (S n)))) with (n + 1 * 4)%nat by lia.
  apply Nat.Div0.mod_add.
Qed.

(** What [btoa] makes of a binary string, [atob] reads back: the text has
    no white space and a length that is a multiple of 4, and without its
    padding it decodes to the string. *)
Lemma b64_round_trip : forall bs,
  Forall (fun c => c < 256) bs ->
  filter (fun c => negb (is_ascii_space c)) (b64_encode bs) = b64_encode bs /\
  Nat.modulo (length (b64_encode bs)) 4 = 0%nat /\
  Nat.modulo (length (strip_padding (b64_encode bs))) 4 <> 1%nat /\
  option_map b64_decode (sextets (strip_padding (b64_encode bs))) = Some bs.
Proof.
  intro bs. induction bs as [|a|a b|a b c bs IH] using list_ind3; intro Hall.
  - cbn. repeat split. discriminate.
  - inversion Hall as [|? ? Ha _]; subst.
    destruct (sextet_bounds a 0 0 Ha) as (B1 & _ & _ & _ & B2 & _); try lia.
    destruct (sextet_facts _ B1) as (I1 & _ & S1).
    destruct (sextet_facts _ B2) as (I2 & _ & S2).
    cbn [b64_encode filter]. rewrite S1, S2. cbn [negb].
    replace (is_ascii_space b64_pad) with false by reflexivity. cbn [negb].
    split; [reflexivity|]. split; [reflexivity|].
    cbn [strip_padding]. replace (b64_pad =? b64_pad) with true by reflexivity.
    split; [cbn; discriminate|].
    cbn [sextets]. rewrite I1, I2. cbn [option_map b64_decode].
    destruct (sextet_decode a 0 0 Ha) as (D1 & _); try lia.
    rewrite N.add_0_r in D1. now rewrite D1.
  - inversion Hall as [|? ? Ha Hrest]; subst.
    inversion Hrest as [|? ? Hb _]; subst.
    destruct (sextet_bounds a b 0 Ha Hb) as (B1 & B2 & _ & _ & _ & B3); try lia.
    destruct (sextet_facts _ B1) as (I1 & _ & S1).
    destruct (sextet_facts _ B2) as (I2 & _ & S2).
    destruct (sextet_facts _ B3) as (I3 & P3 & S3).
    cbn [b64_encode filter]. rewrite S1, S2, S3. cbn [negb].
    replace (is_ascii_space b64_pad) with false by reflexivity. cbn [negb].
    split; [reflexivity|]. split; [reflexivity|].
    cbn [strip_padding]. replace (b64_pad =? b64_pad) with true by reflexivity.
    rewrite P3.
    split; [cbn; discriminate|].
    cbn [sextets]. rewrite I1, I2, I3. cbn [option_map b64_decode].
    destruct (sextet_decode a b 0 Ha Hb) as (D1 & D2 & _); try lia.
    rewrite N.add_0_r in D2. now rewrite D1, D2.
  - inversion Hall as [|? ? Ha Hrest]; subst.
    inversion Hrest as [|? ? Hb Hrest']; subst.
    inversion Hrest' as [|? ? Hc Hbs]; subst.
    destruct (IH Hbs) as (IHf & IHlen & IHstrip & IHdec).
    destruct (sextet_bounds a b c Ha Hb Hc) as (B1 & B2 & B3 & B4 & _ & _).
    destruct (sextet_facts _ B1) as (I1 & _ & S1).
    destruct (sextet_facts _ B2) as (I2 & _ & S2).
    destruct (sextet_facts _ B3) as (I3 & _ & S3).
    destruct (sextet_facts _ B4) as (I4 & P4 & S4).
    cbn [b64_encode].
    split.
    { cbn [filter]. rewrite S1, S2, S3, S4. cbn [negb]. now rewrite IHf. }
    split.
    { cbn [length]. now rewrite mod4_add4. }
    rewrite (strip_padding_group _ _ _ _ _ P4 (b64_encode_shape bs)).
    split.
    { cbn [length]. now rewrite mod4_add4. }
    rewrite (sextets_group _ _ _ _ _ _ _ _ _ I1 I2 I3 I4).
    destruct (sextets (strip_padding (b64_encode bs))) as [vs|]; [|discriminate].
    cbn [option_map] in *. injection IHdec as IHdec.
    cbn [b64_decode]. rewrite IHdec.
    destruct (sextet_decode a b c Ha Hb Hc) as (D1 & D2 & D3).
    now rewrite D1, D2, D3.
Qed.

Lemma atob_b64_encode : forall bs,
  Forall (fun c => c < 256) bs -> atob (b64_encode bs) = Some bs.
Proof.
  intros bs Hall. destruct (b64_round_trip bs Hall) as (Hf & Hlen & Hstrip & Hdec).
  unfold atob. rewrite Hf, Hlen. cbn [Nat.eqb].
  destruct (Nat.eqb_spec (Nat.modulo (length (strip_padding (b64_encode bs))) 4) 1)
    as [Heq|_]; [contradiction|].
  exact Hdec.
Qed.

Lemma fromCharCode_apply_below_256 : forall b,
  Forall (fun c => c < 256) (fromCharCode_apply b).
Proof.
  intro b. apply Forall_forall. intros c Hc.
  rewrite fromCharCode_apply_to_N in Hc. apply in_map_iff in Hc as (x & <- & _).
  pose proof (Byte.to_N_bounded x). lia.
Qed.

(** The base64 text has no carriage return. *)
Lemma b64_char_not_cr : forall i, (13 =? b64_char i) = false.
Proof.
  intro i. unfold b64_char.
  destruct (nth_in_or_default (N.to_nat i) b64_alphabet b64_pad) as [Hin| ->];
    [|reflexivity].
  assert (Hall : forallb (fun c => negb (13 =? c)) b64_alphabet = true)
    by (vm_compute; reflexivity).
  rewrite forallb_forall in Hall. now apply negb_true_iff, Hall.
Qed.

Lemma b64_encode_no_cr : forall bs,
  Forall (fun c => (13 =? c) = false) (b64_encode bs).
Proof.
  intro bs. induction bs as [|a|a b|a b c bs IH] using list_ind3;
    cbn [b64_encode]; repeat constructor; try apply b64_char_not_cr.
  exact IH.
Qed.

(** ** The service's reading of an upload *)

Lemma strip_prefix_app : forall p s, strip_prefix p (p ++ s) = Some s.
Proof.
  induction p as [|c p IH]; intro s; simpl; [reflexivity|].
  now rewrite N.eqb_refl.
Qed.

Lemma strip_suffix_app : forall s suffix, strip_suffix suffix (s ++ suffix) = Some s.
Proof.
  intros s suffix. unfold strip_suffix.
  rewrite rev_app_distr, strip_prefix_app. cbn [option_map].
  now rewrite rev_involutive.
Qed.

Lemma after_blank_line_none : forall s,
  Forall (fun c => (13 =? c) = false) s -> after_blank_line s = None.
Proof.
  induction s as [|c s IH]; intro Hs; [reflexivity|].
  inversion Hs as [|? ? Hc Hrest]; subst.
  cbn [after_blank_line]. rewrite (IH Hrest).
  unfold CRLF. cbn [app strip_prefix]. now rewrite Hc.
Qed.

Lemma after_blank_line_last : forall text,
  Forall (fun c => (13 =? c) = false) text ->
  after_blank_line (CRLF ++ CRLF ++ text) = Some text.
Proof.
  intros text Htext. unfold CRLF. cbn [app after_blank_line].
  rewrite (after_blank_line_none text Htext).
  unfold CRLF. cbn [app strip_prefix].
  destruct text as [|c text]; [reflexivity|].
  inversion Htext as [|? ? Hc _]; subst.
  now rewrite Hc.
Qed.

Lemma after_blank_line_app : forall p s r,
  after_blank_line s = Some r -> after_blank_line (p ++ s) = Some r.
Proof.
  induction p as [|c p IH]; intros s r Hs; [assumption|].
  cbn [app after_blank_line]. now rewrite (IH s r Hs).
Qed.

Lemma request_boundary_upload : forall body,
  request_boundary (upload_request body) = Some boundary.
Proof. intro body. reflexivity. Qed.

(** The service reads back the bytes that [writeFile] put in the body. *)
Lemma request_content_upload : forall contentType meta bytes,
  request_content
    (upload_request
       (multipartRequestBody contentType meta
          (b64_encode (fromCharCode_apply bytes))))
  = Some bytes.
Proof.
  intros contentType meta bytes. unfold request_content.
  rewrite request_boundary_upload. cbn [req_body upload_request].
  unfold body_content. fold close_delim.
  set (text := b64_encode (fromCharCode_apply bytes)).
  replace (multipartRequestBody contentType meta text)
    with (((delimiter ++ (lit "Content-Type: application/json" ++ CRLF ++ CRLF)
            ++ JSON_stringify meta ++ delimiter ++ lit "Content-Type: "
            ++ contentType ++ CRLF ++ lit "Content-Transfer-Encoding: base64")
           ++ CRLF ++ CRLF ++ text) ++ close_delim)
    by (unfold multipartRequestBody; now rewrite <- !app_assoc).
  rewrite strip_suffix_app.
  rewrite (after_blank_line_app _ _ text)
    by (apply after_blank_line_last, b64_encode_no_cr).
  unfold text. rewrite (atob_b64_encode _ (fromCharCode_apply_below_256 bytes)).
  cbn [option_map]. f_equal.
  rewrite <- str2ab_map. apply str2ab_fromCharCode_apply.
Qed.

(** ** Runs *)

Lemma callbacks_app : forall t u, callbacks (t ++ u) = callbacks t ++ callbacks u.
Proof.
  induction t as [|e t IH]; intro u; [reflexivity|].
  destruct e; simpl; now rewrite IH.
Qed.

Lemma requests_app : forall t u, requests (t ++ u) = requests t ++ requests u.
Proof.
  induction t as [|e t IH]; intro u; [reflexivity|].
  destruct e; simpl; now rewrite IH.
Qed.

Lemma inserts_app : forall t u, inserts (t ++ u) = inserts t ++ inserts u.
Proof.
  induction t as [|e t IH]; intro u; [reflexivity|].
  destruct e; simpl; now rewrite IH.
Qed.

Ltac run_step :=
  cbv beta iota delta
    [bind ret get modify emit throw console_error console_log call_if user_cb
     gapi_client_drive gapi_client logged].

(** ** Root-level writes *)

(** A path made of one segment has an empty directory part: its
    directory string is empty or ".", and has no segment. *)
Lemma basedir_of_single_segment : forall p,
  length (path2array p) = 1%nat ->
  (basedir_of p = [] \/ basedir_of p = lit ".") /\
  path2array (basedir_of p) = [].
Proof.
  intros p Hlen.
  assert (Hgoal : basedir_of p = [] \/ basedir_of p = lit ".").
  { rewrite path2array_eq_spec in Hlen. unfold spec_pathToSegments in Hlen.
    pose proof (join_split slash p) as Hjoin.
    pose proof (split_sep_free slash p) as Hfree.
    destruct (split slash p) as [|first others]; [discriminate|].
    destruct (str_eqb first [] || str_eqb first (lit ".")) eqn:Hfirst.
    - destruct others as [|leaf [|? ?]]; try discriminate.
      simpl in Hjoin. subst p.
      inversion Hfree as [|? ? _ Hrest]; subst.
      inversion Hrest as [|? ? Hleaf _]; subst.
      unfold basedir_of. rewrite lastIndexOf_last by assumption.
      rewrite substring_prefix.
      apply orb_true_iff in Hfirst as [H|H]; apply str_eqb_eq in H; auto.
    - destruct others; [|discriminate].
      simpl in Hjoin. subst p. inversion Hfree as [|? ? Hp _]; subst.
      unfold basedir_of. rewrite lastIndexOf_absent by assumption.
      left. apply substring_to_negative. }
  split; [assumption|].
  destruct Hgoal as [-> | ->]; reflexivity.
Qed.

(** On an empty segment sequence [createPath] hands [null] to its
    continuation. *)
Lemma createPath_root_null : forall path k w,
  driveAPILoaded (mgr w) = true ->
  path2array path = [] ->
  createPath path (Some k) w = k VNull w.
Proof.
  intros path k w Hflag Hroot. unfold createPath. run_step.
  now rewrite Hflag, Hroot.
Qed.

Lemma createPath_not_loaded : forall path cb w,
  driveAPILoaded (mgr w) = false ->
  createPath path cb w
  = (Ok tt, logged (EvConsoleError (lit "GDrive Api not loaded")) w).
Proof.
  intros path cb w Hflag. unfold createPath. run_step. now rewrite Hflag.
Qed.

Lemma writeFile_insert_null : forall filePath fileData cb w,
  writeFile_insert filePath fileData cb VNull w
  = (Throw (TypeError "Cannot read property 'id' of null"), w).
Proof. reflexivity. Qed.

(** C10.  For every path whose segment sequence has exactly one element,
    [writeFile] computes an empty directory part (the string is empty, or
    "." for "./name": no segment either way); [createPath] on it calls
    its continuation with [null]; the continuation throws on
    [baseDirResp.id] before anything is sent.  Whatever the state of the
    manager, no upload request is issued and the caller's callback is
    never called. *)
Theorem writeFile_root_level_never_uploads : forall p fileData w,
  length (path2array p) = 1%nat ->
  (basedir_of p = [] \/ basedir_of p = lit ".") /\
  path2array (basedir_of p) = [] /\
  (driveAPILoaded (mgr w) = true ->
     (forall k, createPath (basedir_of p) (Some k) w = k VNull w) /\
     writeFile p fileData (Some user_cb) w
     = (Throw (TypeError "Cannot read property 'id' of null"), w)) /\
  requests (trace (snd (writeFile p fileData (Some user_cb) w)))
    = requests (trace w) /\
  callbacks (trace (snd (writeFile p fileData (Some user_cb) w)))
    = callbacks (trace w).
Proof.
  intros p fileData w Hlen.
  destruct (basedir_of_single_segment p Hlen) as [Hdir Hroot].
  split; [assumption|]. split; [assumption|].
  assert (Hrun : driveAPILoaded (mgr w) = true ->
                 writeFile p fileData (Some user_cb) w
                 = (Throw (TypeError "Cannot read property 'id' of null"), w)).
  { intro Hflag. unfold writeFile.
    rewrite createPath_root_null by assumption.
    apply writeFile_insert_null. }
  split.
  - intro Hflag. split; [|now apply Hrun].
    intro k. now apply createPath_root_null.
  - destruct (driveAPILoaded (mgr w)) eqn:Hflag.
    + rewrite Hrun by reflexivity. now split.
    + unfold writeFile. rewrite createPath_not_loaded by assumption.
      simpl. rewrite requests_app, callbacks_app. simpl.
      now rewrite !app_nil_r.
Qed.

(** ** Session acquisition *)

(** X10.  From a fresh manager, with a user who grants access, the
    handshake runs its three stages in order (client library,
    authorization, drive API) and ends in a ready backend with
    [callback(true)]. *)
Lemma requestFileSystem_fresh : forall clientId g d t immediate,
  grants g immediate = true ->
  let w := {| mgr := new_GDriveFileManager clientId; env := g;
              store := d; trace := t |} in
  exists w',
    requestFileSystem immediate user_cb w = (Ok tt, w') /\
    ready w' /\
    authorized (mgr w') = Some true /\
    store w' = d /\
    trace w' = t ++ [EvGapiLoad (lit "auth:client");
                     EvAuthorize clientId (SCOPES (new_GDriveFileManager clientId)) immediate;
                     EvClientLoad (lit "drive") (lit "v2");
                     EvCallback (VBool true)].
Proof.
  intros clientId g d t immediate Hgrant w.
  eexists. split.
  - unfold requestFileSystem, requestFS, gapi_load, gapi_auth_authorize,
      loadGDriveApi, gapi_client_load. run_step. simpl.
    rewrite Hgrant. simpl. reflexivity.
  - simpl. split; [constructor; reflexivity|].
    repeat split. now rewrite <- !app_assoc.
Qed.

(** C1 (what the code does).  In a state where the session exists
    ([clientOAuthAPILoaded], [authorized] and [driveAPILoaded] all true),
    [requestFileSystem] runs no stage of the handshake again, and it does
    not run its callback either: [loadGDriveApi] has no branch for a drive
    API that is already loaded.  The world is left as it was. *)
Theorem requestFileSystem_again_is_silent : forall w immediate (callback : callback),
  clientOAuthAPILoaded (mgr w) = true ->
  authorized (mgr w) = Some true ->
  driveAPILoaded (mgr w) = true ->
  requestFileSystem immediate callback w = (Ok tt, w).
Proof.
  intros w immediate callback Hlib Hauth Hdrive.
  unfold requestFileSystem, requestFS, loadGDriveApi. run_step.
  rewrite Hlib, Hauth. cbn. now rewrite Hauth, Hdrive.
Qed.

(** The same without the first flag, which no method ever sets: the client
    library is loaded once more, and still no callback runs. *)
Lemma requestFileSystem_again_no_callback : forall w immediate,
  authorized (mgr w) = Some true ->
  driveAPILoaded (mgr w) = true ->
  callbacks (trace (snd (requestFileSystem immediate user_cb w)))
  = callbacks (trace w).
Proof.
  intros w immediate Hauth Hdrive.
  unfold requestFileSystem, requestFS, loadGDriveApi, gapi_load. run_step.
  destruct (clientOAuthAPILoaded (mgr w));
    repeat (rewrite ?Hauth, ?Hdrive; simpl).
  - reflexivity.
  - rewrite callbacks_app. simpl. apply app_nil_r.
Qed.

(** ** Reading *)

Lemma this_isfile_undefined : this_has "isfile" = false.
Proof. reflexivity. Qed.

(** C5 (what the code does).  [readFile] calls [this.isfile], which is
    not defined: for every path and callback the call throws a TypeError
    before any request is made, and the callback is not run. *)
Theorem readFile_throws : forall filePath (callback : callback) w,
  readFile filePath callback w
  = (Throw (TypeError "this.isfile is not a function"), w).
Proof. reflexivity. Qed.

(** Had [readFile] reached the existence check, this is what its
    continuation does with a record that is found: one authorized GET of
    the record's [downloadUrl], whose body is decoded from base64. *)
Lemma readFile_found_fetches : forall (k : callback) f w token body binary,
  auth_client_loaded (env w) = true ->
  access_token (env w) = Some token ->
  http_get (env w) (file_downloadUrl f) = Some body ->
  atob body = Some binary ->
  readFile_found k (VFile f) w
  = k (VData (str2ab binary))
      (logged (EvXhrGet (file_downloadUrl f) (lit "Bearer " ++ token)) w).
Proof.
  intros k f w token body binary Hlib Htok Hget Hdec.
  unfold readFile_found, gapi_auth_getToken_access_token, xhr_get. run_step.
  simpl. rewrite Hlib, Htok. simpl. now rewrite Hget, Hdec.
Qed.

Lemma readFile_found_null : forall (k : callback) w,
  readFile_found k VNull w = k VNull w.
Proof. reflexivity. Qed.

(** C6 (what the code does).  With the drive API loaded and [fileID] in
    the drive, [readFileByID] makes the temporary copy and then calls
    [readFile], which throws: no delete request is ever issued, the copy
    stays in the drive and the callback is not run. *)
Theorem readFileByID_leaves_the_copy : forall fileID (callback : callback) w e,
  driveAPILoaded (mgr w) = true ->
  drive_loaded (env w) = true ->
  find_entry fileID (store w) = Some e ->
  let copy := copy_entry e (fresh_id (store w)) (lit "tempGDriveFile.tmp") in
  exists w',
    readFileByID fileID callback w
    = (Throw (TypeError "this.isfile is not a function"), w') /\
    store w' = store w ++ [copy] /\
    In copy (store w') /\
    trace w' = trace w ++ [EvFilesCopy fileID (lit "tempGDriveFile.tmp")].
Proof.
  intros fileID callback w e Hflag Hdrive Hfind copy.
  unfold readFileByID, files_copy. run_step.
  rewrite Hflag, Hdrive. cbn [store with_trace]. rewrite Hfind.
  eexists. split; [reflexivity|]. simpl. repeat split.
  apply in_or_app. right. now left.
Qed.

(** ** User information *)

(** With cached user information no request is made. *)
Lemma getUserInfo_cached : forall (k : callback) w u,
  userInfo (mgr w) = Some u ->
  getUserInfo k w = k (VUser u) w.
Proof.
  intros k w u Hu. unfold getUserInfo. run_step. now rewrite Hu.
Qed.

(** Without it, and with the drive API of the client library loaded, one
    [about.get] is made; its name and address are stored in the manager
    and handed to the callback. *)
Lemma getUserInfo_fetches : forall (k : callback) w,
  userInfo (mgr w) = None ->
  drive_loaded (env w) = true ->
  let u := {| user_name := about_name (env w);
              user_emailAddress := about_email (env w) |} in
  getUserInfo k w
  = k (VUser u) (with_mgr (set_userInfo u (mgr w)) (logged EvAboutGet w)).
Proof.
  intros k w Hu Hdrive u. unfold getUserInfo, about_get. run_step.
  rewrite Hu, Hdrive. reflexivity.
Qed.

(** C9 (what the code does when the backend is not ready).  [getUserInfo]
    does not test [driveAPILoaded].  Without cached information and
    without the drive API in the client library, it throws a TypeError on
    [gapi.client.drive.about]: nothing is logged and no callback runs. *)
Theorem getUserInfo_not_ready_throws : forall (callback : callback) w,
  userInfo (mgr w) = None ->
  drive_loaded (env w) = false ->
  getUserInfo callback w
  = (Throw (TypeError "Cannot read property of undefined (gapi.client.drive)"), w).
Proof.
  intros callback w Hu Hdrive. unfold getUserInfo, about_get. run_step.
  now rewrite Hu, Hdrive.
Qed.

(** ** Path resolution on the drive *)

(** The identifier given to a new entry is the identifier of no entry of
    the drive. *)
Lemma fresh_id_fresh : forall d e, In e d -> file_id e <> fresh_id d.
Proof.
  intros d e Hin Heq.
  assert (Hlen : (length (file_id e) <= list_max (map (fun x => length (file_id x)) d))%nat).
  { pose proof (proj1 (list_max_le (map (fun x => length (file_id x)) d) _)
                  (Nat.le_refl _)) as Hall.
    rewrite Forall_forall in Hall. apply Hall.
    apply in_map_iff. now exists e. }
  rewrite Heq in Hlen. unfold fresh_id in Hlen. rewrite repeat_length in Hlen.
  lia.
Qed.

Lemma prop_id_of : forall v i w, id_of v = Some i -> prop_id v w = (Ok (Some i), w).
Proof. intros v i w H. destruct v; simpl in H; try discriminate; now inversion H. Qed.

Lemma strip_closing_quote_app : forall s, strip_closing_quote (s ++ squote) = Some s.
Proof.
  intro s. unfold strip_closing_quote, squote. rewrite rev_app_distr. simpl.
  now rewrite rev_involutive.
Qed.

(** The service reads the two search strings as the filters they spell. *)
Lemma parse_query_folder : forall name,
  parse_query (q_folder_named name) = Some (Build_query true name).
Proof.
  intro name. unfold parse_query, q_folder_named.
  now rewrite strip_prefix_app, strip_closing_quote_app.
Qed.

Lemma parse_query_file : forall name,
  parse_query (q_file_named name) = Some (Build_query false name).
Proof.
  intro name. unfold parse_query.
  replace (strip_prefix (lit "mimeType='application/vnd.google-apps.folder' and title='")
             (q_file_named name)) with (@None jsstring) by reflexivity.
  unfold q_file_named. now rewrite strip_prefix_app, strip_closing_quote_app.
Qed.

Lemma new_folder_matches : forall d parent name,
  matches parent (Build_query true name) (new_folder d parent name) = true.
Proof.
  intros d parent name. unfold matches, is_child_of. simpl.
  now rewrite !str_eqb_refl.
Qed.

Lemma children_list_folders : forall fid name k w,
  drive_loaded (env w) = true ->
  children_list (Some fid) (q_folder_named name) k w
  = k (Some (map (fun e => VRef (file_id e)) (folders_named fid name (store w))))
      (logged (EvChildrenList fid (q_folder_named name)) w).
Proof.
  intros fid name k w Hdrive. unfold children_list. run_step.
  rewrite Hdrive. now rewrite parse_query_folder.
Qed.

Lemma files_insert_folder : forall name parent k w,
  drive_loaded (env w) = true ->
  files_insert name folder_mimeType (Some parent) k w
  = let e := new_folder (store w) parent name in
    k (VFile e)
      (with_store (store w ++ [e])
         (logged (EvFilesInsert name folder_mimeType parent) w)).
Proof.
  intros name parent k w Hdrive. unfold files_insert. run_step.
  now rewrite Hdrive.
Qed.

Ltac world_eq :=
  unfold with_drive, logged, with_store, with_trace, with_mgr, with_env;
  cbn [mgr env store trace];
  rewrite <- ?app_assoc; cbn [app];
  reflexivity.

(** [createFolder] runs as [mkdirs] says and then calls the callback. *)
Lemma createFolder_run : forall others f0 rootResp rid cb w,
  drive_loaded (env w) = true ->
  id_of rootResp = Some rid ->
  createFolder cb rootResp f0 others w
  = let '(d', v, evs) := mkdirs (store w) rid f0 others in
    call_if cb v (with_drive d' evs w).
Proof.
  induction others as [|f1 others IH]; intros f0 rootResp rid cb w Hdrive Hid;
    cbn [createFolder mkdirs]; unfold bind at 1;
    rewrite (prop_id_of _ _ _ Hid);
    rewrite children_list_folders by assumption;
    unfold bind, prop_items, ret;
    destruct (folders_named rid f0 (store w)) as [|item0 items] eqn:Hitems;
    cbn [map].
  - rewrite files_insert_folder by assumption. cbv zeta. world_eq.
  - world_eq.
  - rewrite files_insert_folder by assumption. cbv zeta.
    rewrite (IH f1 (VFile (new_folder (store w) rid f0))
               (file_id (new_folder (store w) rid f0)))
      by (assumption || reflexivity).
    cbn [store with_store with_trace logged].
    destruct (mkdirs (store w ++ [new_folder (store w) rid f0])
                (file_id (new_folder (store w) rid f0)) f1 others)
      as [[d' v] evs].
    world_eq.
  - rewrite (IH f1 (VRef (file_id item0)) (file_id item0))
      by (assumption || reflexivity).
    cbn [store with_trace logged].
    destruct (mkdirs (store w) (file_id item0) f1 others) as [[d' v] evs].
    world_eq.
Qed.

Lemma folders_named_app : forall fid name d d',
  folders_named fid name (d ++ d')
  = folders_named fid name d ++ folders_named fid name d'.
Proof. intros. apply filter_app. Qed.

(** A first match stays the first match when the drive grows at its end. *)
Lemma folders_named_first : forall fid name d item0 items d',
  folders_named fid name d = item0 :: items ->
  exists items', folders_named fid name (d ++ d') = item0 :: items'.
Proof.
  intros fid name d item0 items d' H. rewrite folders_named_app, H.
  now eexists.
Qed.

(** A folder inserted where there was none is the first match from then on. *)
Lemma folders_named_inserted : forall fid name d d',
  folders_named fid name d = [] ->
  exists items',
    folders_named fid name ((d ++ [new_folder d fid name]) ++ d')
    = new_folder d fid name :: items'.
Proof.
  intros fid name d d' H. rewrite !folders_named_app, H.
  unfold folders_named at 1. cbn [filter]. rewrite new_folder_matches.
  now eexists.
Qed.

(** The walk only adds entries, at the end of the drive; it hands an
    object with an identifier to the callback; and from then on, however
    the drive grows at its end, every level of the path is found and the
    walk ends on that same identifier. *)
Lemma mkdirs_resolves : forall others d rid f0,
  exists added t,
    fst (fst (mkdirs d rid f0 others)) = d ++ added /\
    id_of (snd (fst (mkdirs d rid f0 others))) = Some t /\
    forall later, resolve ((d ++ added) ++ later) rid f0 others = Some t.
Proof.
  induction others as [|f1 others IH]; intros d rid f0; cbn [mkdirs resolve];
    destruct (folders_named rid f0 d) as [|item0 items] eqn:Hitems.
  - exists [new_folder d rid f0], (file_id (new_folder d rid f0)).
    repeat split. intro later.
    destruct (folders_named_inserted rid f0 d later Hitems) as [items' ->].
    reflexivity.
  - exists [], (file_id item0). rewrite app_nil_r. repeat split. intro later.
    destruct (folders_named_first rid f0 d item0 items later Hitems) as [items' ->].
    reflexivity.
  - destruct (IH (d ++ [new_folder d rid f0]) (file_id (new_folder d rid f0)) f1)
      as (added & t & Hd & Hv & Hres).
    destruct (mkdirs (d ++ [new_folder d rid f0])
                (file_id (new_folder d rid f0)) f1 others) as [[d' v] evs].
    cbn [fst snd] in *.
    exists (new_folder d rid f0 :: added), t.
    split; [now rewrite Hd, <- app_assoc|]. split; [assumption|].
    intro later.
    replace ((d ++ new_folder d rid f0 :: added) ++ later)
      with ((d ++ [new_folder d rid f0]) ++ (added ++ later))
      by (now rewrite <- !app_assoc).
    destruct (folders_named_inserted rid f0 d (added ++ later) Hitems) as [items' ->].
    rewrite app_assoc. apply Hres.
  - destruct (IH d (file_id item0) f1) as (added & t & Hd & Hv & Hres).
    destruct (mkdirs d (file_id item0) f1 others) as [[d' v] evs].
    cbn [fst snd] in *.
    exists added, t. split; [assumption|]. split; [assumption|].
    intro later.
    destruct (folders_named_first rid f0 d item0 items (added ++ later) Hitems)
      as [items' Hfirst].
    rewrite <- app_assoc, Hfirst, app_assoc. apply Hres.
Qed.

(** When every level is found, the walk only lists: it inserts nothing,
    leaves the drive as it is and ends on what [resolve] finds. *)
Lemma mkdirs_found : forall others d rid f0 t,
  resolve d rid f0 others = Some t ->
  mkdirs d rid f0 others = (d, VRef t, listings d rid f0 others).
Proof.
  induction others as [|f1 others IH]; intros d rid f0 t;
    cbn [mkdirs resolve listings];
    destruct (folders_named rid f0 d) as [|item0 items]; try discriminate.
  - intro H. now inversion H.
  - intro H. now rewrite (IH _ _ _ _ H).
Qed.

Lemma listings_only_list : forall others d rid f0,
  inserts (listings d rid f0 others) = [] /\
  requests (listings d rid f0 others) = [] /\
  callbacks (listings d rid f0 others) = [].
Proof.
  induction others as [|f1 others IH]; intros d rid f0; cbn [listings];
    destruct (folders_named rid f0 d) as [|item0 items]; simpl; auto.
Qed.

(** The walk sends no upload request and calls nobody back. *)
Lemma mkdirs_quiet : forall others d rid f0,
  requests (snd (mkdirs d rid f0 others)) = [] /\
  callbacks (snd (mkdirs d rid f0 others)) = [].
Proof.
  induction others as [|f1 others IH]; intros d rid f0; cbn [mkdirs];
    destruct (folders_named rid f0 d) as [|item0 items]; simpl; auto.
  - specialize (IH (d ++ [new_folder d rid f0]) (file_id (new_folder d rid f0)) f1).
    destruct (mkdirs _ _ f1 others) as [[d' v] evs]. exact IH.
  - specialize (IH d (file_id item0) f1).
    destruct (mkdirs _ _ f1 others) as [[d' v] evs]. exact IH.
Qed.

(** [createPath] on a path with segments, backend ready. *)
Lemma createPath_run : forall path f0 others cb w,
  driveAPILoaded (mgr w) = true ->
  drive_loaded (env w) = true ->
  path2array path = f0 :: others ->
  createPath path cb w
  = let '(d', v, evs) := mkdirs (store w) (lit "root") f0 others in
    call_if cb v (with_drive d' evs w).
Proof.
  intros path f0 others cb w Hflag Hdrive Hsegs.
  unfold createPath. run_step. rewrite Hflag, Hsegs.
  now apply createFolder_run.
Qed.

(** Each level of a path that resolves is looked up by one listing, of
    the folders of that name. *)
Lemma listings_by_name : forall others d rid f0 t,
  resolve d rid f0 others = Some t ->
  Forall2 (fun ev name => exists fid, ev = EvChildrenList fid (q_folder_named name))
    (listings d rid f0 others) (f0 :: others).
Proof.
  induction others as [|f1 others IH]; intros d rid f0 t;
    cbn [resolve listings];
    destruct (folders_named rid f0 d) as [|item0 items]; try discriminate;
    intro Hres.
  - constructor; [now eexists|constructor].
  - constructor; [now eexists|]. now apply (IH d (file_id item0) f1 t).
Qed.

(** C3.  With the backend ready and a path that has segments,
    [createPath] succeeds, only adds to the drive and hands to the
    callback a reference to the folder the path resolves to in the drive
    it leaves.  Called again it hands over a reference with the same
    identifier, the folder the path resolves to; what it sends is one
    listing for each segment, of the folders of that name, and nothing
    else: it inserts nothing and the drive is left as the first call made
    it. *)
Theorem createPath_idempotent : forall w path f0 others,
  ready w ->
  path2array path = f0 :: others ->
  exists w1 w2 v1 v2 dirId lists,
    createPath path (Some user_cb) w = (Ok tt, w1) /\
    callbacks (trace w1) = callbacks (trace w) ++ [v1] /\
    createPath path (Some user_cb) w1 = (Ok tt, w2) /\
    callbacks (trace w2) = callbacks (trace w1) ++ [v2] /\
    id_of v1 = Some dirId /\
    id_of v2 = Some dirId /\
    resolve (store w1) (lit "root") f0 others = Some dirId /\
    trace w2 = trace w1 ++ lists ++ [EvCallback v2] /\
    lists = listings (store w1) (lit "root") f0 others /\
    Forall2 (fun ev name => exists fid, ev = EvChildrenList fid (q_folder_named name))
      lists (f0 :: others) /\
    inserts (trace w2) = inserts (trace w1) /\
    store w2 = store w1 /\
    exists added, store w1 = store w ++ added.
Proof.
  intros w path f0 others [Hflag Hdrive _] Hpath.
  pose proof (createPath_run path f0 others (Some user_cb) w Hflag Hdrive Hpath)
    as Hrun1.
  destruct (mkdirs_resolves others (store w) (lit "root") f0)
    as (added & dirId & Hd & Hv & Hres).
  destruct (mkdirs_quiet others (store w) (lit "root") f0) as [_ Hquiet].
  destruct (mkdirs (store w) (lit "root") f0 others) as [[d1 v1] evs1].
  cbn [fst snd] in *. subst d1.
  set (w1 := logged (EvCallback v1) (with_drive (store w ++ added) evs1 w)).
  assert (Hfound : resolve (store w1) (lit "root") f0 others = Some dirId).
  { specialize (Hres []). now rewrite app_nil_r in Hres. }
  pose proof (createPath_run path f0 others (Some user_cb) w1 Hflag Hdrive Hpath)
    as Hrun2.
  rewrite (mkdirs_found _ _ _ _ _ Hfound) in Hrun2.
  destruct (listings_only_list others (store w1) (lit "root") f0)
    as (Hins & _ & Hcb).
  exists w1, (logged (EvCallback (VRef dirId))
                (with_drive (store w1) (listings (store w1) (lit "root") f0 others) w1)),
    v1, (VRef dirId), dirId, (listings (store w1) (lit "root") f0 others).
  split; [exact Hrun1|]. split.
  { unfold w1. cbn. rewrite !callbacks_app, Hquiet. cbn.
    now rewrite app_nil_r. }
  split; [exact Hrun2|]. split.
  { cbn [logged with_drive with_store with_trace trace].
    rewrite !callbacks_app, Hcb. cbn. now rewrite app_nil_r. }
  split; [assumption|]. split; [reflexivity|]. split; [exact Hfound|]. split.
  { cbn [logged with_drive with_store with_trace trace].
    now rewrite <- app_assoc. }
  split; [reflexivity|]. split; [now apply (listings_by_name _ _ _ _ dirId)|]. split.
  - cbn [logged with_drive with_store with_trace trace].
    rewrite !inserts_app, Hins. cbn. now rewrite !app_nil_r.
  - split; [reflexivity|]. now exists added.
Qed.

(** ** Writing *)

Lemma multipartRequestBody_spec : forall contentType meta bytes,
  multipartRequestBody contentType meta (b64_encode (fromCharCode_apply bytes))
  = spec_multipart_body boundary (JSON_stringify meta) contentType (base64 bytes).
Proof.
  intros contentType meta bytes.
  unfold multipartRequestBody, spec_multipart_body, delimiter, close_delim, base64.
  rewrite fromCharCode_apply_to_N. now rewrite <- !app_assoc.
Qed.

(** The insertion callback, given a folder and data within the limit of
    the engine: one upload request, whose response goes to the
    continuation as it is. *)
Lemma writeFile_insert_run : forall filePath fileData (k : callback) dir parent w,
  auth_client_loaded (env w) = true ->
  id_of dir = Some parent ->
  N.of_nat (length (data_bytes fileData)) <= max_arguments (env w) ->
  writeFile_insert filePath fileData (Some k) dir w
  = let sent := logged (EvRequest (request_of filePath fileData parent)) w in
    match upload_failure (env w) with
    | Some code => k (VError code) sent
    | None =>
        let e := uploaded (store w) filePath fileData parent in
        k (VFile e) (with_store (store w ++ [e]) sent)
    end.
Proof.
  intros filePath fileData k dir parent w Hlib Hid Hfits.
  unfold writeFile_insert. unfold bind at 1.
  rewrite (prop_id_of _ _ _ Hid). unfold bind at 1, get.
  rewrite (ab2str_within _ _ Hfits), btoa_fromCharCode_apply.
  unfold gapi_client_request. rewrite request_content_upload.
  run_step. rewrite Hlib.
  cbn [env with_trace]. destruct (upload_failure (env w)); reflexivity.
Qed.

(** Given data past the limit, the insertion callback throws in [ab2str]:
    nothing is sent. *)
Lemma writeFile_insert_oversized : forall filePath fileData cb dir parent w,
  id_of dir = Some parent ->
  max_arguments (env w) < N.of_nat (length (data_bytes fileData)) ->
  writeFile_insert filePath fileData cb dir w
  = (Throw (RangeError "Maximum call stack size exceeded"), w).
Proof.
  intros filePath fileData cb dir parent w Hid Hbig.
  unfold writeFile_insert. unfold bind at 1.
  rewrite (prop_id_of _ _ _ Hid). unfold bind at 1, get.
  now rewrite (ab2str_past _ _ Hbig).
Qed.

Lemma writeFile_insert_no_client : forall filePath fileData cb dir parent w,
  auth_client_loaded (env w) = false ->
  id_of dir = Some parent ->
  exists e, writeFile_insert filePath fileData cb dir w = (Throw e, w).
Proof.
  intros filePath fileData cb dir parent w Hlib Hid.
  destruct (N.le_gt_cases (N.of_nat (length (data_bytes fileData)))
              (max_arguments (env w))) as [Hfits|Hbig].
  - unfold writeFile_insert. unfold bind at 1.
    rewrite (prop_id_of _ _ _ Hid). unfold bind at 1, get.
    rewrite (ab2str_within _ _ Hfits), btoa_fromCharCode_apply.
    unfold gapi_client_request. run_step. rewrite Hlib. now eexists.
  - rewrite (writeFile_insert_oversized _ _ _ _ parent) by assumption.
    now eexists.
Qed.

Lemma createFolder_no_drive : forall others f0 rootResp rid cb w,
  drive_loaded (env w) = false ->
  id_of rootResp = Some rid ->
  exists e, createFolder cb rootResp f0 others w = (Throw e, w).
Proof.
  intros others f0 rootResp rid cb w Hdrive Hid.
  destruct others; cbn [createFolder]; unfold bind at 1;
    rewrite (prop_id_of _ _ _ Hid); unfold children_list; run_step;
    rewrite Hdrive; now eexists.
Qed.

Lemma request_of_wire_format : forall filePath fileData parent,
  wire_format filePath fileData (request_of filePath fileData parent).
Proof.
  intros. exists parent. split; [|reflexivity].
  unfold request_of, upload_request. cbn [req_body].
  apply multipartRequestBody_spec.
Qed.

(** [writeFile], backend ready, on a path with a directory part and data
    within the limit of the engine: the folders first, then the upload,
    then the callback. *)
Lemma writeFile_run : forall filePath fileData f0 others w,
  ready w ->
  path2array (basedir_of filePath) = f0 :: others ->
  N.of_nat (length (data_bytes fileData)) <= max_arguments (env w) ->
  exists added dir parent evs,
    mkdirs (store w) (lit "root") f0 others = (store w ++ added, dir, evs) /\
    id_of dir = Some parent /\
    resolve (store w ++ added) (lit "root") f0 others = Some parent /\
    let sent := with_drive (store w ++ added)
                  (evs ++ [EvRequest (request_of filePath fileData parent)]) w in
    writeFile filePath fileData (Some user_cb) w
    = match upload_failure (env w) with
      | Some code => (Ok tt, logged (EvCallback (VError code)) sent)
      | None =>
          let e := uploaded (store w ++ added) filePath fileData parent in
          (Ok tt, logged (EvCallback (VFile e))
                    (with_store ((store w ++ added) ++ [e]) sent))
      end.
Proof.
  intros filePath fileData f0 others w [Hflag Hdrive Hlib] Hsegs Hfits.
  unfold writeFile. rewrite (createPath_run _ f0 others) by assumption.
  destruct (mkdirs_resolves others (store w) (lit "root") f0)
    as (added & parent & Hd & Hv & Hres).
  destruct (mkdirs (store w) (lit "root") f0 others) as [[d1 dir] evs].
  cbn [fst snd] in *. subst d1.
  exists added, dir, parent, evs. split; [reflexivity|]. split; [assumption|].
  split; [specialize (Hres []); now rewrite app_nil_r in Hres|].
  cbn [call_if]. rewrite (writeFile_insert_run _ _ _ _ parent) by assumption.
  cbn [env with_drive with_store with_trace store].
  destruct (upload_failure (env w)); cbv zeta; unfold user_cb; run_step;
    world_eq.
Qed.

(** The same with data past the limit: the folders are made, then
    [ab2str] throws; nothing is uploaded and the callback is not called. *)
Lemma writeFile_oversized : forall filePath fileData cb f0 others w,
  driveAPILoaded (mgr w) = true ->
  drive_loaded (env w) = true ->
  path2array (basedir_of filePath) = f0 :: others ->
  max_arguments (env w) < N.of_nat (length (data_bytes fileData)) ->
  writeFile filePath fileData cb w
  = let '(d', _, evs) := mkdirs (store w) (lit "root") f0 others in
    (Throw (RangeError "Maximum call stack size exceeded"), with_drive d' evs w).
Proof.
  intros filePath fileData cb f0 others w Hflag Hdrive Hsegs Hbig.
  unfold writeFile. rewrite (createPath_run _ f0 others) by assumption.
  destruct (mkdirs_resolves others (store w) (lit "root") f0)
    as (added & parent & _ & Hv & _).
  destruct (mkdirs (store w) (lit "root") f0 others) as [[d1 dir] evs].
  cbn [fst snd call_if] in *.
  now apply (writeFile_insert_oversized _ _ _ _ parent).
Qed.

Lemma createPath_no_drive : forall path f0 others cb w,
  driveAPILoaded (mgr w) = true ->
  drive_loaded (env w) = false ->
  path2array path = f0 :: others ->
  exists e, createPath path cb w = (Throw e, w).
Proof.
  intros path f0 others cb w Hflag Hdrive Hsegs.
  unfold createPath. run_step. rewrite Hflag, Hsegs.
  now apply (createFolder_no_drive others f0 _ (lit "root")).
Qed.

(** C7.  Every upload request that [writeFile] sends has the wire format
    of the specification: the body is the delimiter, the JSON part with
    the metadata, the delimiter, the part with the content type and the
    base64 text of the bytes, and the closing delimiter; the only header
    is the multipart Content-Type with the boundary in quotes.  With the
    backend ready, a path with a directory part and data that [ab2str]
    can convert (within the argument limit of the engine), exactly one
    such request is sent. *)
Theorem writeFile_wire_format : forall w filePath fileData,
  exists sent,
    requests (trace (snd (writeFile filePath fileData (Some user_cb) w)))
    = requests (trace w) ++ sent /\
    Forall (wire_format filePath fileData) sent /\
    (ready w -> path2array (basedir_of filePath) <> [] ->
     N.of_nat (length (data_bytes fileData)) <= max_arguments (env w) ->
     length sent = 1%nat).
Proof.
  intros w filePath fileData.
  destruct (driveAPILoaded (mgr w)) eqn:Hflag.
  2:{ exists []. unfold writeFile. rewrite createPath_not_loaded by assumption.
      cbn. rewrite requests_app. cbn. repeat split; [constructor|].
      intros [Hready _ _]. congruence. }
  destruct (path2array (basedir_of filePath)) as [|f0 others] eqn:Hsegs.
  { exists []. unfold writeFile. rewrite createPath_root_null by assumption.
    cbn. rewrite app_nil_r. repeat split; [constructor|]. intros _ H. now elim H. }
  destruct (drive_loaded (env w)) eqn:Hdrive.
  2:{ exists []. unfold writeFile.
      destruct (createPath_no_drive (basedir_of filePath) f0 others
                  (Some (writeFile_insert filePath fileData (Some user_cb)))
                  w Hflag Hdrive Hsegs) as [e ->].
      cbn. rewrite app_nil_r. repeat split; [constructor|].
      intros [_ Hready _]. congruence. }
  destruct (N.le_gt_cases (N.of_nat (length (data_bytes fileData)))
              (max_arguments (env w))) as [Hfits|Hbig].
  2:{ exists []. rewrite (writeFile_oversized _ _ _ f0 others) by assumption.
      destruct (mkdirs_quiet others (store w) (lit "root") f0) as [Hquiet _].
      destruct (mkdirs (store w) (lit "root") f0 others) as [[d1 dir] evs].
      cbn [fst snd with_drive with_store with_trace trace] in *.
      rewrite requests_app, Hquiet. repeat split; [constructor|].
      intros _ _ Hfits. lia. }
  unfold writeFile. rewrite (createPath_run _ f0 others) by assumption.
  destruct (mkdirs_resolves others (store w) (lit "root") f0)
    as (added & parent & _ & Hv & _).
  destruct (mkdirs_quiet others (store w) (lit "root") f0) as [Hquiet _].
  destruct (mkdirs (store w) (lit "root") f0 others) as [[d1 dir] evs].
  cbn [fst snd call_if] in *.
  destruct (auth_client_loaded (env w)) eqn:Hlib.
  2:{ exists [].
      destruct (writeFile_insert_no_client filePath fileData (Some user_cb) dir
                  parent (with_drive d1 evs w) Hlib Hv) as [e ->].
      cbn. rewrite requests_app, Hquiet. repeat split; [constructor|].
      intros [_ _ Hready]. congruence. }
  exists [request_of filePath fileData parent].
  rewrite (writeFile_insert_run _ _ _ _ parent) by assumption.
  cbn [env with_drive with_store with_trace].
  split.
  - destruct (upload_failure (env w)); cbv zeta; unfold user_cb; run_step;
      cbn [snd trace with_drive with_store with_trace];
      rewrite !requests_app, Hquiet; cbn [requests app];
      now rewrite ?app_nil_r.
  - split; [|reflexivity].
    constructor; [apply request_of_wire_format|constructor].
Qed.


(** ** The local backend *)

Module LocalFacts.
Import Local.

Lemma lcallbacks_app : forall t u, lcallbacks (t ++ u) = lcallbacks t ++ lcallbacks u.
Proof.
  induction t as [|e t IH]; intro u; [reflexivity|].
  destruct e; simpl; now rewrite IH.
Qed.

(** With the file system at hand [createPath] throws at its first step:
    it calls [getDirectory] on the [FileSystem], which has no such method. *)
Lemma local_createPath_throws : forall path cb w,
  fs w = Some FileSystem ->
  createPath path cb w = (Throw (TypeError "getDirectory is not a function"), w).
Proof.
  intros path cb w Hfs. unfold createPath, with_fs, bind, get. rewrite Hfs.
  destruct (path2array path); reflexivity.
Qed.

Lemma local_writeFile_throws : forall filePath fileData cb w,
  fs w = Some FileSystem ->
  writeFile filePath fileData cb w
  = (Throw (TypeError "getDirectory is not a function"), w).
Proof.
  intros filePath fileData cb w Hfs. unfold writeFile, with_fs, bind, get.
  now rewrite Hfs.
Qed.

(** Whatever the state of the manager and of the browser, [createPath] and
    [writeFile] never call the callback. *)
Lemma local_createPath_never_calls_back : forall path w,
  fs_as_granted w ->
  lcallbacks (ltrace (snd (createPath path (Some user_cb) w))) = lcallbacks (ltrace w).
Proof.
  intros path w [Hfs|Hfs].
  - unfold createPath, with_fs, requestFileSystem, bind, get. rewrite Hfs.
    destruct (br_available (browser_of w)); [|reflexivity].
    cbn. destruct (br_granted (browser_of w)); cbn.
    + destruct (path2array path); cbn; rewrite lcallbacks_app; cbn;
        apply app_nil_r.
    + rewrite lcallbacks_app. cbn. apply app_nil_r.
  - now rewrite local_createPath_throws.
Qed.

Lemma local_writeFile_never_calls_back : forall filePath fileData w,
  fs_as_granted w ->
  lcallbacks (ltrace (snd (writeFile filePath fileData (Some user_cb) w)))
  = lcallbacks (ltrace w).
Proof.
  intros filePath fileData w [Hfs|Hfs].
  - unfold writeFile, with_fs, requestFileSystem, bind, get. rewrite Hfs.
    destruct (br_available (browser_of w)); [|reflexivity].
    cbn. destruct (br_granted (browser_of w)); cbn;
      rewrite lcallbacks_app; cbn; apply app_nil_r.
  - now rewrite local_writeFile_throws.
Qed.

(** The existence check goes through [self.fs.root] and works: a path
    that names nothing in the file system gives [null], with a log. *)
Lemma local_isFile_missing : forall filePath w,
  fs w = Some FileSystem ->
  file_at (browser_of w) (api_target [] filePath) = None ->
  is_dir (browser_of w) (api_target [] filePath) = false ->
  lcallbacks (ltrace (snd (isFile filePath user_cb w)))
  = lcallbacks (ltrace w) ++ [LNull].
Proof.
  intros filePath w Hfs Hfile Hdir.
  unfold isFile, with_fs, getFile, bind, get. rewrite Hfs. cbn.
  rewrite Hfile, Hdir. cbn. rewrite !lcallbacks_app. cbn.
  now rewrite !app_nil_r.
Qed.

End LocalFacts.

(** ** Concrete runs *)



Lemma demo_big_data_length :
  N.of_nat (length (data_bytes demo_big_data)) = 65537.
Proof.
  cbn [demo_big_data data_bytes]. rewrite repeat_length. apply N2Nat.id.
Qed.


Lemma path2array_witness :
  path2array (lit "/app//data") = spec_pathToSegments (lit "/app//data") /\
  spec_pathToSegments (lit "/app//data") = [lit "app"; lit ""; lit "data"].
Proof.
  split.
  - exact (proj1 path2array_drops_one_leading_segment (lit "/app//data")).
  - reflexivity.
Defined.

Lemma str2ab_ab2str_witness :
  (N.of_nat (length (data_bytes demo_data)) <= 65536 /\
   round_trip_identity 65536 (data_bytes demo_data) /\
   ab2str 65536 (data_bytes demo_data) = Some (lit "hi" ++ [0; 255])) /\
  (65536 < N.of_nat (length (data_bytes demo_big_data)) /\
   ab2str 65536 (data_bytes demo_big_data) = None /\
   ~ round_trip_identity 65536 (data_bytes demo_big_data)).
Proof.
  assert (Hfits : N.of_nat (length (data_bytes demo_data)) <= 65536)
    by (cbn; lia).
  assert (Hbig : 65536 < N.of_nat (length (data_bytes demo_big_data)))
    by (rewrite demo_big_data_length; reflexivity).
  split.
  - split; [exact Hfits|].
    destruct (proj1 (str2ab_ab2str 65536 (data_bytes demo_data)) Hfits)
      as [Hround Hstr].
    split; [exact Hround|]. rewrite Hstr. reflexivity.
  - split; [exact Hbig|].
    exact (proj2 (str2ab_ab2str 65536 (data_bytes demo_big_data)) Hbig).
Defined.

Lemma requestFileSystem_again_witness :
  clientOAuthAPILoaded (mgr demo_world_session) = true /\
  authorized (mgr demo_world_session) = Some true /\
  driveAPILoaded (mgr demo_world_session) = true /\
  requestFileSystem true user_cb demo_world_session = (Ok tt, demo_world_session).
Proof.
  split; [reflexivity|]. split; [reflexivity|]. split; [reflexivity|].
  apply (requestFileSystem_again_is_silent demo_world_session true user_cb);
    reflexivity.
Defined.

Lemma readFile_throws_witness :
  readFile (lit "/app/data/test.bin") user_cb demo_world
  = (Throw (TypeError "this.isfile is not a function"), demo_world).
Proof. exact (readFile_throws (lit "/app/data/test.bin") user_cb demo_world). Defined.

Lemma readFileByID_witness :
  driveAPILoaded (mgr demo_world_with_report) = true /\
  drive_loaded (env demo_world_with_report) = true /\
  find_entry (lit "0B-report") (store demo_world_with_report) = Some demo_report /\
  exists w',
    readFileByID (lit "0B-report") user_cb demo_world_with_report
    = (Throw (TypeError "this.isfile is not a function"), w') /\
    map file_title (store w') = [lit "report.pdf"; lit "tempGDriveFile.tmp"] /\
    trace w' = [EvFilesCopy (lit "0B-report") (lit "tempGDriveFile.tmp")].
Proof.
  split; [reflexivity|]. split; [reflexivity|]. split; [reflexivity|].
  destruct (readFileByID_leaves_the_copy (lit "0B-report") user_cb
              demo_world_with_report demo_report)
    as (w' & Hrun & Hstore & _ & Htrace); try reflexivity.
  exists w'. split; [exact Hrun|]. split.
  - rewrite Hstore. reflexivity.
  - rewrite Htrace. reflexivity.
Defined.

Lemma getUserInfo_not_ready_witness :
  userInfo (mgr demo_world_cold) = None /\
  drive_loaded (env demo_world_cold) = false /\
  getUserInfo user_cb demo_world_cold
  = (Throw (TypeError "Cannot read property of undefined (gapi.client.drive)"),
     demo_world_cold).
Proof.
  split; [reflexivity|]. split; [reflexivity|].
  apply (getUserInfo_not_ready_throws user_cb demo_world_cold); reflexivity.
Defined.

Lemma createPath_idempotent_witness :
  ready demo_world /\
  path2array (lit "/app/data") = [lit "app"; lit "data"] /\
  exists w1 w2 v1 v2 dirId,
    createPath (lit "/app/data") (Some user_cb) demo_world = (Ok tt, w1) /\
    callbacks (trace w1) = callbacks (trace demo_world) ++ [v1] /\
    createPath (lit "/app/data") (Some user_cb) w1 = (Ok tt, w2) /\
    callbacks (trace w2) = callbacks (trace w1) ++ [v2] /\
    id_of v1 = Some dirId /\
    id_of v2 = Some dirId /\
    resolve (store w1) (lit "root") (lit "app") [lit "data"] = Some dirId /\
    length (trace w2) = (length (trace w1) + 3)%nat /\
    inserts (trace w2) = inserts (trace w1) /\
    store w2 = store w1.
Proof.
  split; [constructor; reflexivity|].
  split; [reflexivity|].
  destruct (createPath_idempotent demo_world (lit "/app/data") (lit "app") [lit "data"])
    as (w1 & w2 & v1 & v2 & dirId & lists & Hrun1 & Hcb1 & Hrun2 & Hcb2 & Hid1 & Hid2
        & Hres & Htrace & _ & Hlists & Hins & Hstore & _).
  - constructor; reflexivity.
  - reflexivity.
  - exists w1, w2, v1, v2, dirId.
    repeat (split; [assumption|]).
    split; [|split; assumption].
    rewrite Htrace, !length_app, (Forall2_length Hlists). cbn [length]. lia.
Defined.

Lemma writeFile_wire_format_witness :
  ready demo_world /\
  path2array (basedir_of (lit "/app/data/test.bin")) <> [] /\
  N.of_nat (length (data_bytes demo_data)) <= max_arguments (env demo_world) /\
  exists sent,
    requests (trace (snd (writeFile (lit "/app/data/test.bin") demo_data
                            (Some user_cb) demo_world)))
    = requests (trace demo_world) ++ sent /\
    Forall (wire_format (lit "/app/data/test.bin") demo_data) sent /\
    length sent = 1%nat.
Proof.
  assert (Hfits : N.of_nat (length (data_bytes demo_data))
                  <= max_arguments (env demo_world)) by (cbn; lia).
  split; [constructor; reflexivity|].
  split; [discriminate|]. split; [exact Hfits|].
  destruct (writeFile_wire_format demo_world (lit "/app/data/test.bin") demo_data)
    as (sent & Hsent & Hformat & Hone).
  exists sent. split; [exact Hsent|]. split; [exact Hformat|].
  apply Hone; [constructor; reflexivity|discriminate|exact Hfits].
Defined.


Lemma writeFile_root_level_witness :
  length (path2array (lit "test.bin")) = 1%nat /\
  driveAPILoaded (mgr demo_world) = true /\
  path2array (basedir_of (lit "test.bin")) = [] /\
  writeFile (lit "test.bin") demo_data (Some user_cb) demo_world
  = (Throw (TypeError "Cannot read property 'id' of null"), demo_world).
Proof.
  split; [reflexivity|]. split; [reflexivity|].
  destruct (writeFile_root_level_never_uploads (lit "test.bin") demo_data demo_world)
    as (_ & Hroot & Hrun & _); [reflexivity|].
  split; [exact Hroot|].
  apply Hrun. reflexivity.
Defined.

Example base64_hi : base64 (data_bytes demo_data) = lit "aGkA/w==".
Proof. reflexivity. Qed.

Example atob_btoa_hi :
  option_map str2ab (atob (b64_encode (fromCharCode_apply (data_bytes demo_data))))
  = Some (data_bytes demo_data).
Proof. reflexivity. Qed.

Example first_use_runs :
  exists w' dir written,
    first_use demo_world_first_use = (Ok tt, w') /\
    callbacks (trace w')
    = [VBool false; VBool true; VFile dir; VFile written; VFile written] /\
    file_title dir = lit "data" /\
    file_title written = lit "test.bin" /\
    file_parents written = [file_id dir] /\
    file_content written = data_bytes demo_data /\
    length (store w') = 3%nat.
Proof.
  eexists. eexists. eexists.
  split; [vm_compute; reflexivity|].
  split; [vm_compute; reflexivity|].
  repeat split.
Qed.

(** * Further properties *)

(** ** Paths *)

(** The last occurrence of a code unit splits a string in two. *)
Lemma last_occurrence : forall (c : N) (s : jsstring),
  In c s -> exists a b, s = a ++ c :: b /\ ~ In c b.
Proof.
  intros c. induction s as [|x s IH]; intro Hin; [contradiction|].
  destruct (in_dec N.eq_dec c s) as [Hs|Hs].
  - destruct (IH Hs) as (a & b & -> & Hb). now exists (x :: a), b.
  - destruct Hin as [->|Hin]; [|contradiction]. now exists [], s.
Qed.

Lemma substring_from_suffix : forall a c b,
  substring_from (a ++ c :: b) (Z.of_nat (length a) + 1) = b.
Proof.
  intros a c b. unfold substring_from, substring, clamp.
  rewrite Nat2Z.id, length_app. cbn [length].
  replace (Z.to_nat (Z.of_nat (length a) + 1)) with (S (length a)) by lia.
  replace (Nat.min (S (length a)) (length a + S (length b))) with (S (length a)) by lia.
  replace (Nat.min (length a + S (length b)) (length a + S (length b)))
    with (length a + S (length b))%nat by lia.
  replace (Nat.min (S (length a)) (length a + S (length b))) with (S (length a)) by lia.
  replace (Nat.max (S (length a)) (length a + S (length b)))
    with (length a + S (length b))%nat by lia.
  replace (length a + S (length b) - S (length a))%nat with (length b) by lia.
  replace (S (length a)) with (length (a ++ [c])) by (rewrite length_app; simpl; lia).
  replace (a ++ c :: b) with ((a ++ [c]) ++ b) by (now rewrite <- app_assoc).
  rewrite skipn_app, skipn_all, Nat.sub_diag. simpl. apply firstn_all.
Qed.

(** X1.  Appending "/" and a slash-free name to a path appends that name
    to its segments: nothing else changes, whatever the path, and an empty
    name gives an empty last segment. *)
Theorem path2array_append_segment : forall p leaf,
  ~ In slash leaf ->
  path2array (p ++ slash :: leaf) = path2array p ++ [leaf].
Proof.
  intros p leaf Hleaf. rewrite !path2array_eq_spec. unfold spec_pathToSegments.
  rewrite split_app_sep, (split_sep_free_string slash leaf Hleaf).
  pose proof (split_not_nil slash p) as Hnn.
  destruct (split slash p) as [|first others]; [contradiction|].
  cbn [app]. destruct (str_eqb first [] || str_eqb first (lit ".")); reflexivity.
Qed.

Lemma path2array_append_segment_witness :
  ~ In slash (lit "test.bin") /\
  path2array (lit "/app/data" ++ slash :: lit "test.bin")
  = path2array (lit "/app/data") ++ [lit "test.bin"].
Proof.
  assert (H : ~ In slash (lit "test.bin")).
  { intro Hin. vm_compute in Hin. intuition discriminate. }
  split; [exact H|].
  exact (path2array_append_segment (lit "/app/data") (lit "test.bin") H).
Defined.

(** X2.  A path has no segment exactly when it is the empty string or
    ".": every other string, "/" included, has at least one. *)
Theorem path2array_nil_iff : forall p,
  path2array p = [] <-> (p = [] \/ p = lit ".").
Proof.
  intro p. split.
  - rewrite path2array_eq_spec. unfold spec_pathToSegments.
    pose proof (join_split slash p) as Hjoin.
    destruct (split slash p) as [|first others]; [intros _; now left|].
    destruct (str_eqb first [] || str_eqb first (lit ".")) eqn:Hfirst;
      [|discriminate].
    intros ->. simpl in Hjoin. subst first.
    apply orb_true_iff in Hfirst as [H|H]; apply str_eqb_eq in H; auto.
  - intros [-> | ->]; reflexivity.
Qed.

Lemma path2array_nil_iff_witness :
  path2array (lit ".") = [] /\ path2array (lit "/") <> [].
Proof.
  split.
  - apply (proj2 (path2array_nil_iff (lit "."))). now right.
  - intro H. apply (proj1 (path2array_nil_iff (lit "/"))) in H.
    destruct H as [H|H]; discriminate H.
Defined.

(** X3.  An absolute path written from segments is read back as those
    segments: for every non-empty sequence of slash-free segments,
    [path2array] of "/" followed by the segments joined by "/" is the
    sequence itself, empty and "." segments included. *)
Theorem path2array_of_absolute_join : forall seg segs,
  Forall (fun x => ~ In slash x) (seg :: segs) ->
  path2array (slash :: join slash (seg :: segs)) = seg :: segs.
Proof.
  intros seg segs Hfree. rewrite path2array_eq_spec. unfold spec_pathToSegments.
  change (slash :: join slash (seg :: segs))
    with ([] ++ slash :: join slash (seg :: segs)).
  rewrite split_app_sep, split_join by assumption. reflexivity.
Qed.

Lemma path2array_of_absolute_join_witness :
  Forall (fun x => ~ In slash x) [lit "."; lit ""; lit "data"] /\
  path2array (slash :: join slash [lit "."; lit ""; lit "data"])
  = [lit "."; lit ""; lit "data"].
Proof.
  assert (H : Forall (fun x => ~ In slash x) [lit "."; lit ""; lit "data"]).
  { repeat constructor; intro Hin; vm_compute in Hin; intuition discriminate. }
  split; [exact H|].
  exact (path2array_of_absolute_join (lit ".") [lit ""; lit "data"] H).
Defined.

(** X4.  Nothing of a path is lost: no segment contains "/", and the
    path is its segments joined by "/", behind "/" or "./" when one of
    these was dropped; the only other path is "." itself. *)
Theorem path2array_rebuilds_path : forall p,
  Forall (fun seg => ~ In slash seg) (path2array p) /\
  (p = join slash (path2array p) \/
   p = slash :: join slash (path2array p) \/
   p = lit "./" ++ join slash (path2array p) \/
   p = lit ".").
Proof.
  intro p. rewrite path2array_eq_spec. unfold spec_pathToSegments.
  pose proof (join_split slash p) as Hjoin.
  pose proof (split_sep_free slash p) as Hfree.
  destruct (split slash p) as [|first others]; [split; [constructor|now left]|].
  destruct (str_eqb first [] || str_eqb first (lit ".")) eqn:Hfirst.
  - split; [now inversion Hfree|].
    destruct others as [|o others].
    + simpl in Hjoin. subst p.
      apply orb_true_iff in Hfirst as [H|H]; apply str_eqb_eq in H; subst; auto.
    + change (join slash (first :: o :: others))
        with (first ++ slash :: join slash (o :: others)) in Hjoin.
      apply orb_true_iff in Hfirst as [H|H]; apply str_eqb_eq in H; subst first.
      * right. left. now rewrite <- Hjoin.
      * right. right. left. now rewrite <- Hjoin.
  - split; [assumption|]. left. now rewrite Hjoin.
Qed.

(** ** Buffers *)

Lemma to_N_to_uint8 : forall c, Byte.to_N (to_uint8 c) = c mod 256.
Proof.
  intro c. unfold to_uint8.
  destruct (Byte.of_N (c mod 256)) as [b|] eqn:Hb.
  - now apply Byte.to_of_N.
  - apply Byte.of_N_None_iff in Hb.
    pose proof (N.mod_upper_bound c 256). lia.
Qed.

(** X5.  [str2ab] keeps the length of the string and only the low eight
    bits of each code unit, so, for a string within the argument limit of
    the engine, [ab2str (str2ab s)] is [s] with every code unit taken
    modulo 256: the string itself when it is Latin-1, another string as
    soon as one code unit is above 255. *)
Theorem ab2str_str2ab : forall limit (s : jsstring),
  N.of_nat (length s) <= limit ->
  length (str2ab s) = length s /\
  ab2str limit (str2ab s) = Some (map (fun c => c mod 256) s) /\
  (ab2str limit (str2ab s) = Some s <-> Forall (fun c => c < 256) s).
Proof.
  intros limit s Hfits. rewrite str2ab_map.
  assert (Hmap : ab2str limit (map to_uint8 s) = Some (map (fun c => c mod 256) s)).
  { rewrite ab2str_within by (now rewrite length_map).
    f_equal. unfold fromCharCode_apply. rewrite map_map. apply map_ext. intro c.
    rewrite to_N_to_uint8. unfold fromCharCode.
    pose proof (N.mod_upper_bound c 256). apply N.mod_small. lia. }
  split; [apply length_map|]. split; [exact Hmap|].
  rewrite Hmap. clear Hmap Hfits.
  assert (Hsame : map (fun c => c mod 256) s = s <-> Forall (fun c => c < 256) s).
  { induction s as [|c s IH]; simpl.
    - split; [constructor|reflexivity].
    - split.
      + intro H. injection H as Hc Hs. constructor.
        * rewrite <- Hc. apply N.mod_upper_bound. lia.
        * now apply IH.
      + intro H. inversion H as [|? ? Hc Hs]; subst.
        rewrite N.mod_small by assumption. f_equal. now apply IH. }
  split.
  - intro H. apply Hsame. now injection H.
  - intro H. f_equal. now apply Hsame.
Qed.

Lemma ab2str_str2ab_witness :
  N.of_nat (length (lit "hi" ++ [955])) <= 65536 /\
  ab2str 65536 (str2ab (lit "hi" ++ [955])) = Some (lit "hi" ++ [187]).
Proof.
  assert (Hfits : N.of_nat (length (lit "hi" ++ [955])) <= 65536) by (cbn; lia).
  split; [exact Hfits|].
  destruct (ab2str_str2ab 65536 (lit "hi" ++ [955]) Hfits) as (_ & Hstr & _).
  rewrite Hstr. reflexivity.
Defined.

(** ** The directory and the name of a file path *)

Lemma filePath_cut : forall filePath fileData,
  In slash filePath ->
  data_name fileData = None ->
  let name := name_of filePath fileData in
  basedir_of filePath ++ slash :: name = filePath /\
  ~ In slash name /\
  path2array filePath = path2array (basedir_of filePath) ++ [name].
Proof.
  intros filePath fileData Hin Hname name.
  destruct (last_occurrence slash filePath Hin) as (a & b & -> & Hb).
  assert (Hbase : basedir_of (a ++ slash :: b) = a).
  { unfold basedir_of. rewrite lastIndexOf_last by assumption.
    apply substring_prefix. }
  assert (Hleaf : name = b).
  { unfold name, name_of. rewrite Hname. cbn [or_else].
    rewrite lastIndexOf_last by assumption. apply substring_from_suffix. }
  rewrite Hbase, Hleaf. split; [reflexivity|]. split; [assumption|].
  rewrite !path2array_eq_spec. unfold spec_pathToSegments.
  rewrite split_app_sep, (split_sep_free_string slash b Hb).
  pose proof (split_not_nil slash a) as Hnn.
  destruct (split slash a) as [|first others]; [contradiction|].
  cbn [app]. destruct (str_eqb first [] || str_eqb first (lit ".")); reflexivity.
Qed.

(** X6.  [writeFile] cuts the file path at its last "/" and loses
    nothing: the directory part, "/" and the name give the path back, the
    name has no "/", and the segments of the path are those of the
    directory part followed by the name.  The name is the one sent as
    title when the data carries no name of its own. *)
Theorem writeFile_cuts_at_last_slash : forall filePath fileData,
  In slash filePath ->
  data_name fileData = None ->
  let name := name_of filePath fileData in
  basedir_of filePath ++ slash :: name = filePath /\
  ~ In slash name /\
  path2array filePath = path2array (basedir_of filePath) ++ [name].
Proof. exact filePath_cut. Qed.

Lemma writeFile_cuts_at_last_slash_witness :
  In slash (lit "/app/data/test.bin") /\
  data_name demo_data = None /\
  basedir_of (lit "/app/data/test.bin") ++ slash :: name_of (lit "/app/data/test.bin") demo_data
  = lit "/app/data/test.bin" /\
  path2array (lit "/app/data/test.bin")
  = path2array (basedir_of (lit "/app/data/test.bin"))
    ++ [name_of (lit "/app/data/test.bin") demo_data].
Proof.
  assert (Hin : In slash (lit "/app/data/test.bin")) by (now left).
  split; [exact Hin|]. split; [reflexivity|].
  destruct (writeFile_cuts_at_last_slash (lit "/app/data/test.bin") demo_data
              Hin eq_refl) as (Hcut & _ & Hsegs).
  split; [exact Hcut|exact Hsegs].
Defined.

(** ** The handshake *)

Ltac split_run :=
  repeat match goal with
         | |- context [if ?b then _ else _] => destruct b eqn:?; cbn
         | |- context [match ?o with Some _ => _ | None => _ end] =>
             destruct o eqn:?; cbn
         end.

(** X7.  A refused authorization stops the handshake: the callback gets
    [false], the drive API is not loaded, [authorized] stays unset and the
    drive is not touched; the client library has been loaded. *)
Theorem requestFileSystem_refused_stops : forall w immediate,
  clientOAuthAPILoaded (mgr w) = false ->
  flag (authorized (mgr w)) = false ->
  grants (env w) immediate = false ->
  exists w',
    requestFileSystem immediate user_cb w = (Ok tt, w') /\
    trace w' = trace w ++ [EvGapiLoad (lit "auth:client");
                           EvAuthorize (CLIENT_ID (mgr w)) (SCOPES (mgr w)) immediate;
                           EvCallback (VBool false)] /\
    mgr w' = mgr w /\
    auth_client_loaded (env w') = true /\
    drive_loaded (env w') = drive_loaded (env w) /\
    store w' = store w.
Proof.
  intros w immediate Hlib Hauth Hgrant.
  unfold requestFileSystem, requestFS, gapi_load, gapi_auth_authorize.
  run_step. rewrite Hlib. cbn. rewrite Hauth. cbn. rewrite Hgrant. cbn.
  eexists. split; [reflexivity|]. cbn. rewrite <- !app_assoc. repeat split.
Qed.

Lemma requestFileSystem_refused_witness :
  clientOAuthAPILoaded (mgr demo_world_first_use) = false /\
  flag (authorized (mgr demo_world_first_use)) = false /\
  grants (env demo_world_first_use) true = false /\
  exists w',
    requestFileSystem true user_cb demo_world_first_use = (Ok tt, w') /\
    callbacks (trace w') = [VBool false] /\
    mgr w' = mgr demo_world_first_use.
Proof.
  split; [reflexivity|]. split; [reflexivity|]. split; [reflexivity|].
  destruct (requestFileSystem_refused_stops demo_world_first_use true)
    as (w' & Hrun & Htrace & Hmgr & _); try reflexivity.
  exists w'. split; [exact Hrun|]. split; [|exact Hmgr].
  rewrite Htrace. reflexivity.
Defined.

(** X8.  A refused attempt can be retried: on a new manager, an attempt
    that is refused followed by an attempt that is granted calls the
    callback with [false] and then [true] and leaves the backend ready and
    authorized, the drive untouched. *)
Theorem requestFileSystem_retry_after_refusal : forall clientId g d t first second,
  grants g first = false ->
  grants g second = true ->
  let w := {| mgr := new_GDriveFileManager clientId; env := g;
              store := d; trace := t |} in
  exists w',
    bind (requestFileSystem first user_cb)
         (fun _ => requestFileSystem second user_cb) w = (Ok tt, w') /\
    callbacks (trace w') = callbacks t ++ [VBool false; VBool true] /\
    ready w' /\
    authorized (mgr w') = Some true /\
    store w' = d.
Proof.
  intros clientId g d t first second Hfirst Hsecond w.
  unfold requestFileSystem, requestFS, gapi_load, gapi_auth_authorize,
    loadGDriveApi, gapi_client_load.
  run_step. cbn. rewrite Hfirst. cbn. rewrite Hsecond. cbn.
  eexists. split; [reflexivity|]. cbn.
  split; [|split; [constructor; reflexivity|split; reflexivity]].
  rewrite !callbacks_app. cbn. now rewrite <- !app_assoc.
Qed.

Lemma requestFileSystem_retry_witness :
  grants (env demo_world_first_use) true = false /\
  grants (env demo_world_first_use) false = true /\
  exists w',
    bind (requestFileSystem true user_cb)
         (fun _ => requestFileSystem false user_cb) demo_world_first_use
    = (Ok tt, w') /\
    callbacks (trace w') = [VBool false; VBool true] /\
    ready w'.
Proof.
  split; [reflexivity|]. split; [reflexivity|].
  destruct (requestFileSystem_retry_after_refusal (lit "client")
              (env demo_world_first_use) [] [] true false)
    as (w' & Hrun & Hcb & Hready & _); try reflexivity.
  exists w'. split; [exact Hrun|]. split; [exact Hcb|exact Hready].
Defined.

(** X9.  Whatever the state and the answer of the user,
    [requestFileSystem] never sets [clientOAuthAPILoaded], never clears
    [authorized] or [driveAPILoaded], and leaves the cached user
    information and the drive as they are.  So a manager whose first flag
    is unset (every manager the constructor makes) loads the client
    library again on each call. *)
Theorem requestFileSystem_keeps_flags : forall w immediate,
  let w' := snd (requestFileSystem immediate user_cb w) in
  clientOAuthAPILoaded (mgr w') = clientOAuthAPILoaded (mgr w) /\
  (authorized (mgr w) = Some true -> authorized (mgr w') = Some true) /\
  (driveAPILoaded (mgr w) = true -> driveAPILoaded (mgr w') = true) /\
  userInfo (mgr w') = userInfo (mgr w) /\
  store w' = store w /\
  (clientOAuthAPILoaded (mgr w) = false ->
   exists rest, trace w' = trace w ++ EvGapiLoad (lit "auth:client") :: rest).
Proof.
  intros w immediate. destruct w as [m g d t]. destruct m as [cid sc lib au auth dl ui].
  destruct g as [lim acl drl gr tok uf an ae hg].
  unfold requestFileSystem, requestFS, gapi_load, gapi_auth_authorize,
    loadGDriveApi, gapi_client_load.
  run_step. cbn.
  destruct (gr immediate) eqn:Hgrant;
    destruct lib, auth as [[|]|], dl, acl; cbn; rewrite ?Hgrant; cbn;
    repeat split; try congruence; try discriminate;
    try (intros _; rewrite <- ?app_assoc; cbn; eexists; reflexivity).
Qed.

Lemma requestFileSystem_keeps_flags_witness :
  clientOAuthAPILoaded (mgr (snd (requestFileSystem false user_cb demo_world_cold)))
  = false /\
  exists rest,
    trace (snd (requestFileSystem false user_cb demo_world))
    = trace demo_world ++ EvGapiLoad (lit "auth:client") :: rest.
Proof.
  split.
  - exact (proj1 (requestFileSystem_keeps_flags demo_world_cold false)).
  - apply (requestFileSystem_keeps_flags demo_world false). reflexivity.
Defined.

Lemma requestFileSystem_fresh_witness :
  grants (env demo_world_cold) false = true /\
  exists w',
    requestFileSystem false user_cb demo_world_cold = (Ok tt, w') /\
    ready w' /\
    callbacks (trace w') = [VBool true].
Proof.
  split; [reflexivity|].
  destruct (requestFileSystem_fresh (lit "client") (env demo_world_cold) [] [] false)
    as (w' & Hrun & Hready & _ & _ & Htrace); [reflexivity|].
  exists w'. split; [exact Hrun|]. split; [exact Hready|].
  rewrite Htrace. reflexivity.
Defined.

(** ** User information, twice *)

(** X11.  The user information is fetched once: of two calls of
    [getUserInfo] in a row, the first sends the only [about.get], and both
    callbacks get the same name and address, which stay cached in the
    manager. *)
Theorem getUserInfo_fetches_once : forall w,
  userInfo (mgr w) = None ->
  drive_loaded (env w) = true ->
  let u := {| user_name := about_name (env w);
              user_emailAddress := about_email (env w) |} in
  exists w',
    bind (getUserInfo user_cb) (fun _ => getUserInfo user_cb) w = (Ok tt, w') /\
    trace w' = trace w ++ [EvAboutGet; EvCallback (VUser u); EvCallback (VUser u)] /\
    userInfo (mgr w') = Some u /\
    store w' = store w.
Proof.
  intros w Hu Hdrive u. unfold bind at 1.
  rewrite (getUserInfo_fetches user_cb w Hu Hdrive). fold u.
  unfold user_cb at 1. run_step.
  rewrite (getUserInfo_cached user_cb _ u) by reflexivity.
  unfold user_cb. run_step.
  eexists. split; [reflexivity|]. cbn. rewrite <- !app_assoc. repeat split.
Qed.

Lemma getUserInfo_fetches_once_witness :
  userInfo (mgr demo_world) = None /\
  drive_loaded (env demo_world) = true /\
  exists w',
    bind (getUserInfo user_cb) (fun _ => getUserInfo user_cb) demo_world = (Ok tt, w') /\
    length (trace w') = 3%nat.
Proof.
  split; [reflexivity|]. split; [reflexivity|].
  destruct (getUserInfo_fetches_once demo_world) as (w' & Hrun & Htrace & _);
    try reflexivity.
  exists w'. split; [exact Hrun|]. rewrite Htrace. reflexivity.
Defined.

(** ** A backend that is not ready *)

(** X12.  While [driveAPILoaded] is unset, [createPath], [isFile],
    [readFileByID] and [writeFile] (through [createPath]) do one thing
    only: they log "GDrive Api not loaded".  No request is sent, the
    drive is not touched and the callback is never called, with or
    without one. *)
Theorem not_loaded_only_logs : forall w path fileData cb,
  driveAPILoaded (mgr w) = false ->
  let logged_only := (Ok tt, logged (EvConsoleError (lit "GDrive Api not loaded")) w) in
  createPath path cb w = logged_only /\
  isFile path cb w = logged_only /\
  writeFile path fileData cb w = logged_only /\
  forall k, readFileByID path k w = logged_only.
Proof.
  intros w path fileData cb Hflag logged_only. unfold logged_only.
  unfold writeFile, createPath, isFile, readFileByID. run_step.
  rewrite Hflag. repeat split.
Qed.

Lemma not_loaded_only_logs_witness :
  driveAPILoaded (mgr demo_world_cold) = false /\
  callbacks (trace (snd (writeFile (lit "/app/data/test.bin") demo_data
                           (Some user_cb) demo_world_cold))) = [] /\
  trace (snd (isFile (lit "/app/data/test.bin") (Some user_cb) demo_world_cold))
  = [EvConsoleError (lit "GDrive Api not loaded")].
Proof.
  split; [reflexivity|].
  destruct (not_loaded_only_logs demo_world_cold (lit "/app/data/test.bin")
              demo_data (Some user_cb)) as (_ & Hfile & Hwrite & _);
    [reflexivity|].
  split.
  - rewrite Hwrite. reflexivity.
  - rewrite Hfile. reflexivity.
Defined.

(** ** Sharing *)

(** X13.  [shareFile] calls [this.isfile], which is not defined (the
    method is [isFile]): for every path, address, callback and state it
    throws a TypeError before any request, so no permission is ever
    inserted and the callback is never called. *)
Theorem shareFile_throws : forall filePath userMail cb w,
  shareFile filePath userMail cb w
  = (Throw (TypeError "this.isfile is not a function"), w).
Proof. reflexivity. Qed.

(** ** What createPath leaves in the drive *)

(** The walk adds folders only, named after segments of the path, one
    insert request for each. *)
Lemma mkdirs_adds_folders : forall others d rid f0,
  exists added,
    fst (fst (mkdirs d rid f0 others)) = d ++ added /\
    Forall (fun e => file_mimeType e = folder_mimeType /\
                     In (file_title e) (f0 :: others)) added /\
    (length added <= length (f0 :: others))%nat /\
    inserts (snd (mkdirs d rid f0 others))
    = map (fun e => (hd [] (file_parents e), file_title e)) added.
Proof.
  induction others as [|f1 others IH]; intros d rid f0; cbn [mkdirs];
    destruct (folders_named rid f0 d) as [|item0 items].
  - exists [new_folder d rid f0]. cbn. repeat split; try lia.
    constructor; [|constructor]. split; [reflexivity|now left].
  - exists []. cbn. rewrite app_nil_r. repeat split; try lia. constructor.
  - destruct (IH (d ++ [new_folder d rid f0]) (file_id (new_folder d rid f0)) f1)
      as (added & Hd & Hall & Hlen & Hins).
    destruct (mkdirs (d ++ [new_folder d rid f0])
                (file_id (new_folder d rid f0)) f1 others) as [[d' v] evs].
    cbn [fst snd] in *. exists (new_folder d rid f0 :: added).
    split; [now rewrite Hd, <- app_assoc|]. split.
    + constructor; [split; [reflexivity|now left]|].
      eapply Forall_impl; [|exact Hall]. cbn. intros e [Hm Ht].
      split; [assumption|now right].
    + split; [cbn in *; lia|]. cbn. now rewrite Hins.
  - destruct (IH d (file_id item0) f1) as (added & Hd & Hall & Hlen & Hins).
    destruct (mkdirs d (file_id item0) f1 others) as [[d' v] evs].
    cbn [fst snd] in *. exists added. split; [assumption|]. split.
    + eapply Forall_impl; [|exact Hall]. cbn. intros e [Hm Ht].
      split; [assumption|now right].
    + split; [cbn in *; lia|]. cbn. exact Hins.
Qed.

Lemma listings_length : forall others d rid f0 dirId,
  resolve d rid f0 others = Some dirId ->
  length (listings d rid f0 others) = S (length others).
Proof.
  induction others as [|f1 others IH]; intros d rid f0 dirId;
    cbn [resolve listings];
    destruct (folders_named rid f0 d) as [|item0 items]; try discriminate.
  - reflexivity.
  - intro H. cbn [length]. now rewrite (IH _ _ _ _ H).
Qed.

(** X14.  With the backend ready, [createPath] on a path with segments
    only adds to the drive: the entries that were there stay, in place;
    what is added are folders named after segments of the path, at most
    one for each segment and one insert request for each; and the
    reference handed to the callback is the folder the whole path then
    resolves to. *)
Theorem createPath_only_adds_folders : forall w path f0 others,
  ready w ->
  path2array path = f0 :: others ->
  exists w1 added v dirId,
    createPath path (Some user_cb) w = (Ok tt, w1) /\
    store w1 = store w ++ added /\
    Forall (fun e => file_mimeType e = folder_mimeType /\
                     In (file_title e) (f0 :: others)) added /\
    (length added <= length (f0 :: others))%nat /\
    inserts (trace w1)
    = inserts (trace w) ++ map (fun e => (hd [] (file_parents e), file_title e)) added /\
    callbacks (trace w1) = callbacks (trace w) ++ [v] /\
    id_of v = Some dirId /\
    resolve (store w1) (lit "root") f0 others = Some dirId.
Proof.
  intros w path f0 others [Hflag Hdrive _] Hsegs.
  pose proof (createPath_run path f0 others (Some user_cb) w Hflag Hdrive Hsegs)
    as Hrun.
  destruct (mkdirs_adds_folders others (store w) (lit "root") f0)
    as (added & Hd & Hall & Hlen & Hins).
  destruct (mkdirs_resolves others (store w) (lit "root") f0)
    as (added' & dirId & Hd' & Hv & Hres).
  destruct (mkdirs_quiet others (store w) (lit "root") f0) as [_ Hquiet].
  destruct (mkdirs (store w) (lit "root") f0 others) as [[d1 v] evs].
  cbn [fst snd] in *. subst d1. apply app_inv_head in Hd'. subst added'.
  eexists _, added, v, dirId. split; [exact Hrun|].
  cbn [store trace logged with_drive with_store with_trace].
  split; [reflexivity|]. split; [assumption|]. split; [assumption|].
  split; [rewrite !inserts_app, Hins; cbn; now rewrite app_nil_r|].
  split; [rewrite !callbacks_app, Hquiet; cbn; now rewrite app_nil_r|].
  split; [assumption|].
  specialize (Hres []). now rewrite app_nil_r in Hres.
Qed.

Lemma createPath_only_adds_folders_witness :
  ready demo_world_with_report /\
  path2array (lit "/app/data") = [lit "app"; lit "data"] /\
  exists w1 added v dirId,
    createPath (lit "/app/data") (Some user_cb) demo_world_with_report = (Ok tt, w1) /\
    store w1 = store demo_world_with_report ++ added /\
    (length added <= 2)%nat /\
    id_of v = Some dirId /\
    resolve (store w1) (lit "root") (lit "app") [lit "data"] = Some dirId.
Proof.
  split; [constructor; reflexivity|]. split; [reflexivity|].
  destruct (createPath_only_adds_folders demo_world_with_report (lit "/app/data")
              (lit "app") [lit "data"])
    as (w1 & added & v & dirId & Hrun & Hstore & _ & Hlen & _ & _ & Hid & Hres).
  - constructor; reflexivity.
  - reflexivity.
  - exists w1, added, v, dirId. repeat split; assumption.
Defined.

(** X15.  On a path whose every level already exists, [createPath] only
    reads: it logs one event for each segment and no insert, leaves the
    drive unchanged and hands the callback a reference to the folder the
    path resolves to (the first match at each level). *)
Theorem createPath_existing_only_lists : forall w path f0 others dirId,
  ready w ->
  path2array path = f0 :: others ->
  resolve (store w) (lit "root") f0 others = Some dirId ->
  exists w1 lists,
    createPath path (Some user_cb) w = (Ok tt, w1) /\
    store w1 = store w /\
    trace w1 = trace w ++ lists ++ [EvCallback (VRef dirId)] /\
    length lists = length (f0 :: others) /\
    inserts lists = [] /\ requests lists = [].
Proof.
  intros w path f0 others dirId [Hflag Hdrive _] Hsegs Hres.
  pose proof (createPath_run path f0 others (Some user_cb) w Hflag Hdrive Hsegs)
    as Hrun.
  rewrite (mkdirs_found _ _ _ _ _ Hres) in Hrun.
  destruct (listings_only_list others (store w) (lit "root") f0) as (Hins & Hreq & _).
  eexists _, (listings (store w) (lit "root") f0 others).
  split; [exact Hrun|].
  cbn [store trace logged with_drive with_store with_trace].
  split; [reflexivity|]. split; [now rewrite <- app_assoc|].
  split; [now apply (listings_length _ _ _ _ dirId)|]. now split.
Qed.

Lemma createPath_existing_witness_world :
  resolve (store (snd (createPath (lit "/app/data") None demo_world)))
    (lit "root") (lit "app") [lit "data"] = Some (lit "xx").
Proof. reflexivity. Qed.

Lemma createPath_existing_only_lists_witness :
  let w := snd (createPath (lit "/app/data") None demo_world) in
  ready w /\
  path2array (lit "/app/data") = [lit "app"; lit "data"] /\
  resolve (store w) (lit "root") (lit "app") [lit "data"] = Some (lit "xx") /\
  exists w1 lists,
    createPath (lit "/app/data") (Some user_cb) w = (Ok tt, w1) /\
    store w1 = store w /\
    trace w1 = trace w ++ lists ++ [EvCallback (VRef (lit "xx"))] /\
    length lists = 2%nat.
Proof.
  cbv zeta.
  split; [constructor; reflexivity|]. split; [reflexivity|].
  split; [reflexivity|].
  destruct (createPath_existing_only_lists
              (snd (createPath (lit "/app/data") None demo_world))
              (lit "/app/data") (lit "app") [lit "data"] (lit "xx"))
    as (w1 & lists & Hrun & Hstore & Htrace & Hlen & _).
  - constructor; reflexivity.
  - reflexivity.
  - reflexivity.
  - exists w1, lists. repeat split; assumption.
Defined.

(** ** The existence check on the drive *)

Lemma children_list_files : forall fid name k w,
  drive_loaded (env w) = true ->
  children_list (Some fid) (q_file_named name) k w
  = k (Some (map (fun e => VRef (file_id e)) (files_named fid name (store w))))
      (logged (EvChildrenList fid (q_file_named name)) w).
Proof.
  intros fid name k w Hdrive. unfold children_list. run_step.
  rewrite Hdrive. now rewrite parse_query_file.
Qed.

Lemma files_get_run : forall i k w,
  drive_loaded (env w) = true ->
  files_get (Some i) k w
  = k (match find_entry i (store w) with
       | Some e => VFile e
       | None => VError 404
       end)
      (logged (EvFilesGet i) w).
Proof.
  intros i k w Hdrive. unfold files_get. run_step. rewrite Hdrive.
  cbn [store with_trace]. destruct (find_entry i (store w)); reflexivity.
Qed.

(** [findEntry] runs as [locate] says: listings down to the level where
    nothing matches, then the log and [null]; or down to the file, then
    one [files.get] whose answer goes to the callback. *)
Lemma findEntry_run : forall others e0 filePath rootResp rid (k : callback) w,
  drive_loaded (env w) = true ->
  id_of rootResp = Some rid ->
  findEntry filePath (Some k) rootResp e0 others w
  = let lists := locate_listings (store w) rid e0 others in
    match locate (store w) rid e0 others with
    | None =>
        k VNull
          (with_trace (trace w ++ lists ++ [EvConsoleError (not_found_message filePath)]) w)
    | Some x =>
        k (match find_entry (file_id x) (store w) with
           | Some e => VFile e
           | None => VError 404
           end)
          (with_trace (trace w ++ lists ++ [EvFilesGet (file_id x)]) w)
    end.
Proof.
  induction others as [|e1 others IH]; intros e0 filePath rootResp rid k w Hdrive Hid;
    cbn [findEntry locate locate_listings]; unfold bind at 1;
    rewrite (prop_id_of _ _ _ Hid).
  - rewrite children_list_files by assumption.
    unfold bind, prop_items, ret.
    destruct (files_named rid e0 (store w)) as [|item0 items]; cbn [map hd_error].
    + unfold console_error, not_found_message. run_step. world_eq.
    + cbn [prop_id ret]. rewrite files_get_run by assumption.
      cbn [store logged with_trace]. world_eq.
  - rewrite children_list_folders by assumption.
    unfold bind, prop_items, ret.
    destruct (folders_named rid e0 (store w)) as [|item0 items]; cbn [map].
    + unfold console_error, not_found_message. run_step. world_eq.
    + rewrite (IH e1 filePath (VRef (file_id item0)) (file_id item0))
        by (assumption || reflexivity).
      cbn [store logged with_trace]. cbv zeta.
      destruct (locate (store w) (file_id item0) e1 others); world_eq.
Qed.

Lemma isFile_run : forall filePath e0 others (k : callback) w,
  driveAPILoaded (mgr w) = true ->
  drive_loaded (env w) = true ->
  path2array filePath = e0 :: others ->
  isFile filePath (Some k) w
  = findEntry filePath (Some k) (VRef (lit "root")) e0 others w.
Proof.
  intros filePath e0 others k w Hflag Hdrive Hsegs.
  unfold isFile. run_step. now rewrite Hflag, Hsegs.
Qed.

Lemma find_entry_found : forall i d e,
  find_entry i d = Some e -> In e d /\ file_id e = i.
Proof.
  intros i d e H. apply find_some in H as [Hin Heq].
  split; [assumption|]. now apply str_eqb_eq.
Qed.

Lemma find_entry_member : forall x d,
  In x d -> exists e, find_entry (file_id x) d = Some e.
Proof.
  intros x d Hin. destruct (find_entry (file_id x) d) as [e|] eqn:Hfind.
  - now exists e.
  - pose proof (find_none _ _ Hfind x Hin) as H. cbn in H.
    now rewrite str_eqb_refl in H.
Qed.

(** With identifiers that are unique, the entry with the identifier of a
    member is that member. *)
Lemma find_entry_unique : forall d x,
  unique_ids d -> In x d -> find_entry (file_id x) d = Some x.
Proof.
  unfold unique_ids, find_entry.
  induction d as [|y d IH]; intros x Hnd Hin; [contradiction|].
  cbn [find map] in *. inversion Hnd as [|? ? Hy Hd]; subst.
  destruct Hin as [->|Hin].
  - now rewrite str_eqb_refl.
  - destruct (str_eqb (file_id y) (file_id x)) eqn:Heq.
    + apply str_eqb_eq in Heq. exfalso. apply Hy. rewrite Heq.
      now apply in_map.
    + now apply IH.
Qed.

Lemma matches_file : forall fid name e,
  matches fid (Build_query false name) e = true ->
  In fid (file_parents e) /\
  file_mimeType e <> folder_mimeType /\
  file_title e = name.
Proof.
  intros fid name e H. unfold matches, is_child_of in H.
  cbn [q_is_folder q_title] in H.
  apply andb_true_iff in H as [H Htitle]. apply andb_true_iff in H as [Hchild Hmime].
  apply str_eqb_eq in Htitle. split; [|split; [|assumption]].
  - apply existsb_exists in Hchild as (p & Hin & Heq).
    apply str_eqb_eq in Heq. now subst.
  - intro Heq. apply str_eqb_eq in Heq. rewrite Heq in Hmime. discriminate.
Qed.

Lemma last_nonempty_default : forall (l : list jsstring) a d d',
  last (a :: l) d = last (a :: l) d'.
Proof.
  induction l as [|b l IH]; intros a d d'; [reflexivity|].
  change (last (a :: b :: l) d) with (last (b :: l) d).
  change (last (a :: b :: l) d') with (last (b :: l) d'). apply IH.
Qed.

(** What the walk finds is in the drive, is not a folder and has the name
    of the last segment. *)
Lemma locate_found : forall others d rid e0 x,
  locate d rid e0 others = Some x ->
  In x d /\
  file_mimeType x <> folder_mimeType /\
  file_title x = last (e0 :: others) e0.
Proof.
  induction others as [|e1 others IH]; intros d rid e0 x; cbn [locate].
  - intro H. destruct (files_named rid e0 d) as [|y ys] eqn:Hfiles; [discriminate|].
    cbn in H. injection H as ->.
    assert (Hin : In x (files_named rid e0 d)) by (rewrite Hfiles; now left).
    apply filter_In in Hin as [Hin Hm].
    destruct (matches_file _ _ _ Hm) as (_ & Hmime & Htitle). now repeat split.
  - destruct (folders_named rid e0 d) as [|item0 items]; [discriminate|].
    intro H. destruct (IH _ _ _ _ H) as (Hin & Hmime & Htitle).
    repeat split; try assumption.
    rewrite Htitle. change (last (e0 :: e1 :: others) e0) with (last (e1 :: others) e0).
    apply last_nonempty_default.
Qed.

Lemma locate_listings_quiet : forall others d rid e0,
  inserts (locate_listings d rid e0 others) = [] /\
  requests (locate_listings d rid e0 others) = [] /\
  callbacks (locate_listings d rid e0 others) = [].
Proof.
  induction others as [|e1 others IH]; intros d rid e0; cbn [locate_listings].
  - now repeat split.
  - destruct (folders_named rid e0 d) as [|item0 items]; cbn; [now repeat split|].
    apply IH.
Qed.

(** X16.  With the backend ready, the existence check only reads: for
    every path it calls the callback exactly once, inserts and uploads
    nothing and leaves the drive and the manager as they are; the
    callback gets [null] or a record that is in the drive. *)
Theorem isFile_only_reads : forall w filePath,
  ready w ->
  exists w' v,
    isFile filePath (Some user_cb) w = (Ok tt, w') /\
    store w' = store w /\
    mgr w' = mgr w /\
    callbacks (trace w') = callbacks (trace w) ++ [v] /\
    inserts (trace w') = inserts (trace w) /\
    requests (trace w') = requests (trace w) /\
    (v = VNull \/ exists e, v = VFile e /\ In e (store w)).
Proof.
  intros w filePath [Hflag Hdrive _].
  destruct (path2array filePath) as [|e0 others] eqn:Hsegs.
  - exists (logged (EvCallback VNull) w), VNull. split.
    + unfold isFile. run_step. now rewrite Hflag, Hsegs.
    + cbn. rewrite callbacks_app, inserts_app, requests_app. cbn.
      rewrite !app_nil_r. repeat split. now left.
  - rewrite (isFile_run _ e0 others) by assumption.
    rewrite (findEntry_run others e0 filePath _ (lit "root")) by (assumption || reflexivity).
    cbv zeta.
    destruct (locate_listings_quiet others (store w) (lit "root") e0)
      as (Hins & Hreq & Hcb).
    destruct (locate (store w) (lit "root") e0 others) as [x|] eqn:Hloc.
    + destruct (locate_found _ _ _ _ _ Hloc) as (Hin & _).
      destruct (find_entry_member x (store w) Hin) as [e He]. rewrite He.
      eexists _, (VFile e). split; [reflexivity|].
      cbn [store mgr trace logged with_trace].
      rewrite !callbacks_app, !inserts_app, !requests_app, Hins, Hreq, Hcb. cbn.
      rewrite !app_nil_r. repeat split. right. exists e. split; [reflexivity|].
      now apply (find_entry_found _ _ _ He).
    + eexists _, VNull. split; [reflexivity|].
      cbn [store mgr trace logged with_trace].
      rewrite !callbacks_app, !inserts_app, !requests_app, Hins, Hreq, Hcb. cbn.
      rewrite !app_nil_r. repeat split. now left.
Qed.

Lemma isFile_only_reads_witness :
  ready demo_world_with_report /\
  exists w' v,
    isFile (lit "/report.pdf") (Some user_cb) demo_world_with_report = (Ok tt, w') /\
    store w' = store demo_world_with_report /\
    callbacks (trace w') = callbacks (trace demo_world_with_report) ++ [v].
Proof.
  split; [constructor; reflexivity|].
  destruct (isFile_only_reads demo_world_with_report (lit "/report.pdf"))
    as (w' & v & Hrun & Hstore & _ & Hcb & _); [constructor; reflexivity|].
  exists w', v. repeat split; assumption.
Defined.

(** X17.  When, at some level of the path, no entry of the wanted name
    and kind is among the children (a folder for every segment but the
    last, a file for the last), the existence check stops there: it logs
    "File <path> not found!", sends no [files.get] and calls the callback
    with [null]. *)
Theorem isFile_not_found_is_null : forall w filePath e0 others,
  ready w ->
  path2array filePath = e0 :: others ->
  locate (store w) (lit "root") e0 others = None ->
  exists w' lists,
    isFile filePath (Some user_cb) w = (Ok tt, w') /\
    trace w' = trace w ++ lists
               ++ [EvConsoleError (lit "File " ++ filePath ++ lit " not found!");
                   EvCallback VNull] /\
    lists = locate_listings (store w) (lit "root") e0 others /\
    (length lists <= length (e0 :: others))%nat /\
    store w' = store w.
Proof.
  intros w filePath e0 others [Hflag Hdrive _] Hsegs Hloc.
  rewrite (isFile_run _ e0 others) by assumption.
  rewrite (findEntry_run others e0 filePath _ (lit "root")) by (assumption || reflexivity).
  cbv zeta. rewrite Hloc.
  eexists _, (locate_listings (store w) (lit "root") e0 others).
  split; [reflexivity|].
  cbn [store trace logged with_trace]. unfold not_found_message.
  split; [rewrite <- !app_assoc; reflexivity|].
  split; [reflexivity|]. split; [|reflexivity].
  clear. generalize (lit "root") as rid. revert e0.
  induction others as [|e1 others IH]; intros e0 rid; cbn [locate_listings length].
  - lia.
  - destruct (folders_named rid e0 (store w)) as [|item0 items]; cbn [length].
    + lia.
    + specialize (IH e1 (file_id item0)). cbn [length] in IH. lia.
Qed.

Lemma isFile_not_found_witness :
  ready demo_world_with_report /\
  path2array (lit "/app/report.pdf") = [lit "app"; lit "report.pdf"] /\
  locate (store demo_world_with_report) (lit "root") (lit "app") [lit "report.pdf"] = None /\
  callbacks (trace (snd (isFile (lit "/app/report.pdf") (Some user_cb)
                           demo_world_with_report))) = [VNull].
Proof.
  split; [constructor; reflexivity|]. split; [reflexivity|]. split; [reflexivity|].
  destruct (isFile_not_found_is_null demo_world_with_report (lit "/app/report.pdf")
              (lit "app") [lit "report.pdf"])
    as (w' & lists & Hrun & Htrace & Hlists & _).
  - constructor; reflexivity.
  - reflexivity.
  - reflexivity.
  - rewrite Hrun. cbn [snd]. rewrite Htrace, Hlists. reflexivity.
Defined.

(** X18.  When every level is found and identifiers are unique, the
    callback gets the record of the first file of that name under the
    folder reached: a record of the drive that is not a folder and is
    named as the last segment; one [files.get] is sent, for its
    identifier. *)
Theorem isFile_found_is_the_file : forall w filePath e0 others x,
  ready w ->
  unique_ids (store w) ->
  path2array filePath = e0 :: others ->
  locate (store w) (lit "root") e0 others = Some x ->
  exists w',
    isFile filePath (Some user_cb) w = (Ok tt, w') /\
    trace w' = trace w ++ locate_listings (store w) (lit "root") e0 others
               ++ [EvFilesGet (file_id x); EvCallback (VFile x)] /\
    In x (store w) /\
    file_mimeType x <> folder_mimeType /\
    file_title x = last (e0 :: others) e0 /\
    store w' = store w.
Proof.
  intros w filePath e0 others x [Hflag Hdrive _] Huniq Hsegs Hloc.
  rewrite (isFile_run _ e0 others) by assumption.
  rewrite (findEntry_run others e0 filePath _ (lit "root")) by (assumption || reflexivity).
  cbv zeta. rewrite Hloc.
  destruct (locate_found _ _ _ _ _ Hloc) as (Hin & Hmime & Htitle).
  rewrite (find_entry_unique _ _ Huniq Hin).
  eexists. split; [reflexivity|].
  cbn [store trace logged with_trace].
  split; [now rewrite <- !app_assoc|]. now repeat split.
Qed.

Lemma isFile_found_witness :
  ready demo_world_with_report /\
  unique_ids (store demo_world_with_report) /\
  path2array (lit "/report.pdf") = [lit "report.pdf"] /\
  locate (store demo_world_with_report) (lit "root") (lit "report.pdf") []
  = Some demo_report /\
  callbacks (trace (snd (isFile (lit "/report.pdf") (Some user_cb)
                           demo_world_with_report))) = [VFile demo_report].
Proof.
  assert (Huniq : unique_ids (store demo_world_with_report)).
  { repeat constructor. intros []. }
  split; [constructor; reflexivity|]. split; [exact Huniq|].
  split; [reflexivity|]. split; [reflexivity|].
  destruct (isFile_found_is_the_file demo_world_with_report (lit "/report.pdf")
              (lit "report.pdf") [] demo_report)
    as (w' & Hrun & Htrace & _).
  - constructor; reflexivity.
  - exact Huniq.
  - reflexivity.
  - reflexivity.
  - rewrite Hrun. cbn [snd]. rewrite Htrace. reflexivity.
Defined.

(** ** Writing, then looking the file up *)










(** X20.  [writeFile] never overwrites.  With the backend ready, the
    service accepting uploads and data within the argument limit of the
    engine, writing the same path twice leaves two entries in the drive
    with the same title under the same folder and different identifiers,
    one for each callback; the second write creates no folder. *)
Theorem writeFile_twice_duplicates : forall w filePath fileData f0 others,
  ready w ->
  upload_failure (env w) = None ->
  path2array (basedir_of filePath) = f0 :: others ->
  N.of_nat (length (data_bytes fileData)) <= max_arguments (env w) ->
  exists w1 w2 e1 e2,
    writeFile filePath fileData (Some user_cb) w = (Ok tt, w1) /\
    writeFile filePath fileData (Some user_cb) w1 = (Ok tt, w2) /\
    callbacks (trace w2) = callbacks (trace w) ++ [VFile e1; VFile e2] /\
    file_id e1 <> file_id e2 /\
    file_title e1 = file_title e2 /\
    file_parents e1 = file_parents e2 /\
    In e1 (store w2) /\ In e2 (store w2) /\
    inserts (trace w2) = inserts (trace w1).
Proof.
  intros w filePath fileData f0 others Hready Hup Hsegs Hfits.
  destruct (writeFile_run filePath fileData f0 others w Hready Hsegs Hfits)
    as (added & dir & parent & evs & Hmk & Hid & _ & Hrun).
  cbv zeta in Hrun. rewrite Hup in Hrun.
  destruct Hready as [Hflag Hdrive Hlib].
  destruct (mkdirs_resolves others (store w) (lit "root") f0)
    as (added' & parent' & Hd' & Hv' & Hres).
  pose proof (mkdirs_quiet others (store w) (lit "root") f0) as [_ Hcb].
  rewrite Hmk in Hd', Hv', Hcb. cbn [fst snd] in *.
  apply app_inv_head in Hd'. subst added'.
  rewrite Hid in Hv'. injection Hv' as <-.
  set (e1 := uploaded (store w ++ added) filePath fileData parent) in *.
  set (d1 := (store w ++ added) ++ [e1]) in *.
  set (w1 := logged (EvCallback (VFile e1))
               (with_store d1
                  (with_drive (store w ++ added)
                     (evs ++ [EvRequest (request_of filePath fileData parent)]) w))) in *.
  assert (Hready1 : ready w1) by (constructor; assumption).
  pose proof (Hres [e1]) as Hres1. fold d1 in Hres1.
  set (e2 := uploaded d1 filePath fileData parent).
  destruct (listings_only_list others d1 (lit "root") f0) as (Hins & _ & Hcb2).
  assert (Hrun2 : writeFile filePath fileData (Some user_cb) w1
                  = (Ok tt, logged (EvCallback (VFile e2))
                              (with_store (d1 ++ [e2])
                                 (with_drive d1
                                    (listings d1 (lit "root") f0 others
                                       ++ [EvRequest (request_of filePath fileData parent)])
                                    w1)))).
  { unfold writeFile. rewrite (createPath_run _ f0 others) by assumption.
    change (store w1) with d1. rewrite (mkdirs_found _ _ _ _ _ Hres1).
    cbn [call_if]. rewrite (writeFile_insert_run _ _ _ _ parent) by (assumption || reflexivity).
    cbn [env with_drive with_store with_trace store]. change (env w1) with (env w).
    rewrite Hup. cbv zeta. unfold user_cb. run_step. world_eq. }
  eexists w1, _, e1, e2. split; [exact Hrun|]. split; [exact Hrun2|].
  cbn [store trace logged with_drive with_store with_trace w1].
  split.
  { rewrite !callbacks_app, Hcb, Hcb2. cbn. rewrite !app_nil_r.
    now rewrite <- !app_assoc. }
  split.
  { change (file_id e2) with (fresh_id d1). apply fresh_id_fresh.
    unfold d1. apply in_or_app. right. now left. }
  split; [reflexivity|]. split; [reflexivity|].
  split; [apply in_or_app; left; unfold d1; apply in_or_app; right; now left|].
  split; [apply in_or_app; right; now left|].
  rewrite !inserts_app, Hins. cbn. now rewrite !app_nil_r.
Qed.

Lemma writeFile_twice_duplicates_witness :
  ready demo_world /\
  upload_failure (env demo_world) = None /\
  path2array (basedir_of (lit "/app/data/test.bin")) = [lit "app"; lit "data"] /\
  N.of_nat (length (data_bytes demo_data)) <= max_arguments (env demo_world) /\
  exists w1 w2 e1 e2,
    writeFile (lit "/app/data/test.bin") demo_data (Some user_cb) demo_world = (Ok tt, w1) /\
    writeFile (lit "/app/data/test.bin") demo_data (Some user_cb) w1 = (Ok tt, w2) /\
    callbacks (trace w2) = [VFile e1; VFile e2] /\
    file_id e1 <> file_id e2 /\
    file_title e1 = file_title e2.
Proof.
  assert (Hfits : N.of_nat (length (data_bytes demo_data))
                  <= max_arguments (env demo_world)) by (cbn; lia).
  split; [constructor; reflexivity|]. split; [reflexivity|]. split; [reflexivity|].
  split; [exact Hfits|].
  destruct (writeFile_twice_duplicates demo_world (lit "/app/data/test.bin")
              demo_data (lit "app") [lit "data"])
    as (w1 & w2 & e1 & e2 & Hrun1 & Hrun2 & Hcb & Hids & Htitle & _).
  - constructor; reflexivity.
  - reflexivity.
  - reflexivity.
  - exact Hfits.
  - exists w1, w2, e1, e2.
    split; [exact Hrun1|]. split; [exact Hrun2|]. split; [exact Hcb|].
    split; [exact Hids|exact Htitle].
Defined.

(** ** The transport encoding *)

(** X21.  The transport encoding loses nothing: for every buffer within
    the argument limit of the engine, [ab2str] returns a string, [btoa]
    of it is the base64 text that [writeFile] puts in the upload, [atob]
    decodes that text to the string, and [str2ab] of the result is the
    buffer again, which is the decoding [readFile] applies to what it
    downloads. *)
Theorem transport_round_trip : forall limit (b : ArrayBuffer),
  N.of_nat (length b) <= limit ->
  exists binary text,
    ab2str limit b = Some binary /\
    btoa binary = Some text /\
    atob text = Some binary /\
    option_map str2ab (atob text) = Some b.
Proof.
  intros limit b Hfits.
  exists (fromCharCode_apply b), (b64_encode (fromCharCode_apply b)).
  split; [now apply ab2str_within|].
  split; [apply btoa_fromCharCode_apply|].
  rewrite (atob_b64_encode _ (fromCharCode_apply_below_256 b)).
  split; [reflexivity|]. cbn [option_map]. f_equal.
  apply str2ab_fromCharCode_apply.
Qed.

Lemma transport_round_trip_witness :
  N.of_nat (length (data_bytes demo_data)) <= 65536 /\
  exists text,
    option_map btoa (ab2str 65536 (data_bytes demo_data)) = Some (Some text) /\
    option_map str2ab (atob text) = Some (data_bytes demo_data).
Proof.
  assert (Hfits : N.of_nat (length (data_bytes demo_data)) <= 65536) by (cbn; lia).
  split; [exact Hfits|].
  destruct (transport_round_trip 65536 (data_bytes demo_data) Hfits)
    as (binary & text & Hstr & Hbtoa & _ & Hback).
  exists text. split; [|exact Hback].
  rewrite Hstr. cbn [option_map]. now rewrite Hbtoa.
Defined.

(** X22.  The function [readFile] hands to the existence check, given a
    record and an access token: it sends one GET of the record's
    [downloadUrl] with the token as bearer; a body that is the base64 text
    of a buffer gives that buffer to the callback; a body [atob] rejects
    throws and calls nobody; a network error is logged and gives [null].
    Given [null] instead of a record it calls the callback with [null]
    and sends nothing. *)
Theorem readFile_found_decodes : forall (k : callback) f w token,
  auth_client_loaded (env w) = true ->
  access_token (env w) = Some token ->
  let url := file_downloadUrl f in
  let sent := logged (EvXhrGet url (lit "Bearer " ++ token)) w in
  (forall b text,
     btoa (fromCharCode_apply b) = Some text ->
     http_get (env w) url = Some text ->
     readFile_found k (VFile f) w = k (VData b) sent) /\
  (forall body,
     http_get (env w) url = Some body ->
     atob body = None ->
     readFile_found k (VFile f) w = (Throw InvalidCharacterError, sent)) /\
  (http_get (env w) url = None ->
   readFile_found k (VFile f) w
   = k VNull
       (logged (EvConsoleLog (VString (lit "Could not read file: " ++ file_title f
                                         ++ lit " with id: " ++ file_id f)))
          sent)) /\
  readFile_found k VNull w = k VNull w.
Proof.
  intros k f w token Hlib Htok url sent.
  split; [|split; [|split; [|reflexivity]]].
  - intros b text Hbtoa Hget.
    rewrite btoa_fromCharCode_apply in Hbtoa. injection Hbtoa as <-.
    rewrite (readFile_found_fetches k f w token _ (fromCharCode_apply b) Hlib Htok Hget
               (atob_b64_encode _ (fromCharCode_apply_below_256 b))).
    fold url sent. do 2 f_equal.
    apply str2ab_fromCharCode_apply.
  - intros body Hget Hbad.
    unfold readFile_found, gapi_auth_getToken_access_token, xhr_get. run_step.
    cbn [truthy]. rewrite Hlib, Htok. cbn [env with_trace prop_downloadUrl].
    fold url. now rewrite Hget, Hbad.
  - intro Hget.
    unfold readFile_found, gapi_auth_getToken_access_token, xhr_get. run_step.
    cbn [truthy]. rewrite Hlib, Htok. cbn [env with_trace prop_downloadUrl].
    fold url. rewrite Hget. reflexivity.
Qed.

Lemma readFile_found_decodes_witness :
  auth_client_loaded (env demo_world_serving) = true /\
  access_token (env demo_world_serving) = Some (lit "ya29.token") /\
  callbacks (trace (snd (readFile_found user_cb (VFile demo_report) demo_world_serving)))
  = [VData (file_content demo_report)].
Proof.
  split; [reflexivity|]. split; [reflexivity|].
  destruct (readFile_found_decodes user_cb demo_report demo_world_serving
              (lit "ya29.token") eq_refl eq_refl) as (Hdec & _).
  rewrite (Hdec (file_content demo_report)
             (b64_encode (fromCharCode_apply (file_content demo_report)))); reflexivity.
Defined.

(** ** The local backend, further *)

Module LocalMore.
Import Local.

(** The world once the file system has been granted. *)
Lemma with_fs_acquires : forall (op : option fsobject -> L unit) w,
  fs w = None ->
  br_available (browser_of w) = true ->
  br_granted (browser_of w) = true ->
  with_fs op w
  = op (Some FileSystem)
      {| fs := Some FileSystem; browser_of := browser_of w;
         ltrace := ltrace w ++ [LRequestFileSystem] |}.
Proof.
  intros op w Hfs Havail Hgrant.
  unfold with_fs, requestFileSystem, set_fs, emit, bind, get, modify.
  rewrite Hfs, Havail. cbn. rewrite Hgrant. reflexivity.
Qed.

Lemma with_fs_held : forall (op : option fsobject -> L unit) w o,
  fs w = Some o -> with_fs op w = op (Some o) w.
Proof.
  intros op w o Hfs. unfold with_fs, bind, get. now rewrite Hfs.
Qed.

(** X23.  In a browser without the file API ([window.requestFileSystem]
    and its prefixed form both undefined), a manager without file system
    does nothing at all: [createPath], [isFile], [readFile] and
    [writeFile] return at once, nothing is logged or thrown and the
    callback is never called. *)
Theorem local_without_api_nothing_happens : forall w path fileData cb (k : lcallback),
  fs w = None ->
  br_available (browser_of w) = false ->
  createPath path cb w = (Ok tt, w) /\
  isFile path k w = (Ok tt, w) /\
  readFile path k w = (Ok tt, w) /\
  writeFile path fileData cb w = (Ok tt, w).
Proof.
  intros w path fileData cb k Hfs Havail.
  unfold createPath, isFile, readFile, writeFile, with_fs, requestFileSystem,
    bind, get.
  rewrite Hfs, Havail. repeat split.
Qed.

Lemma local_without_api_witness :
  fs demo_local_no_api = None /\
  br_available (browser_of demo_local_no_api) = false /\
  readFile (lit "/docs/a.txt") user_cb demo_local_no_api = (Ok tt, demo_local_no_api).
Proof.
  split; [reflexivity|]. split; [reflexivity|].
  destruct (local_without_api_nothing_happens demo_local_no_api (lit "/docs/a.txt")
              [] None user_cb eq_refl eq_refl) as (_ & _ & Hread & _).
  exact Hread.
Defined.

(** X24.  When the browser refuses the file system, every operation of
    a manager without file system throws "Could not grant filesystem"
    from the error handler of the request: [this.fs] stays [null], the
    operation itself is not started and the callback is never called. *)
Theorem local_refused_throws : forall w path fileData cb (k : lcallback),
  fs w = None ->
  br_available (browser_of w) = true ->
  br_granted (browser_of w) = false ->
  let refused := (Throw (Error "Could not grant filesystem"),
                  {| fs := None; browser_of := browser_of w;
                     ltrace := ltrace w ++ [LRequestFileSystem] |}) in
  createPath path cb w = refused /\
  isFile path k w = refused /\
  readFile path k w = refused /\
  writeFile path fileData cb w = refused.
Proof.
  intros w path fileData cb k Hfs Havail Hgrant refused. unfold refused.
  unfold createPath, isFile, readFile, writeFile, with_fs, requestFileSystem,
    emit, bind, get, modify.
  rewrite Hfs, Havail. cbn. rewrite Hgrant, Hfs. repeat split.
Qed.

Lemma local_refused_witness :
  fs demo_local_refused = None /\
  br_available (browser_of demo_local_refused) = true /\
  br_granted (browser_of demo_local_refused) = false /\
  fst (isFile (lit "/docs/a.txt") user_cb demo_local_refused)
  = Throw (Error "Could not grant filesystem").
Proof.
  split; [reflexivity|]. split; [reflexivity|]. split; [reflexivity|].
  destruct (local_refused_throws demo_local_refused (lit "/docs/a.txt") [] None
              user_cb eq_refl eq_refl eq_refl) as (_ & Hfile & _).
  rewrite Hfile. reflexivity.
Defined.

(** X25.  A manager without file system asks for it first and then runs
    the operation: when the browser grants it, [isFile] and [readFile]
    behave as on a manager that already holds the file system, after one
    request that stores it in [this.fs]. *)
Theorem local_acquires_then_runs : forall w path (k : lcallback),
  fs w = None ->
  br_available (browser_of w) = true ->
  br_granted (browser_of w) = true ->
  let w' := {| fs := Some FileSystem; browser_of := browser_of w;
               ltrace := ltrace w ++ [LRequestFileSystem] |} in
  isFile path k w = isFile path k w' /\
  readFile path k w = readFile path k w'.
Proof.
  intros w path k Hfs Havail Hgrant w'.
  unfold isFile, readFile.
  rewrite !(with_fs_acquires _ w Hfs Havail Hgrant).
  rewrite !(with_fs_held _ w' FileSystem eq_refl). now split.
Qed.

Lemma local_acquires_then_runs_witness :
  fs demo_local_cold = None /\
  br_available (browser_of demo_local_cold) = true /\
  br_granted (browser_of demo_local_cold) = true /\
  lcallbacks (ltrace (snd (readFile (lit "/docs/a.txt") user_cb demo_local_cold)))
  = [LBuffer ["h"%byte; "i"%byte]].
Proof.
  split; [reflexivity|]. split; [reflexivity|]. split; [reflexivity|].
  destruct (local_acquires_then_runs demo_local_cold (lit "/docs/a.txt") user_cb
              eq_refl eq_refl eq_refl) as (_ & Hread).
  rewrite Hread. reflexivity.
Defined.

(** X26.  With the file system held, [readFile] and [isFile] look the
    path up from the root with one [getFile] that creates nothing: for a
    file that is there, [readFile] hands its bytes and [isFile] its File
    object to the callback; for a path that names nothing, both log the
    error code 1 and hand over [null].  The file system is left as it
    is. *)
Theorem local_read_found_or_null : forall w path,
  fs w = Some FileSystem ->
  let target := api_target [] path in
  let asked := {| fs := fs w; browser_of := browser_of w;
                  ltrace := ltrace w ++ [LGetFile [] path false] |} in
  (forall content,
     file_at (browser_of w) target = Some content ->
     readFile path user_cb w
     = (Ok tt, snd (emit (LCallback (LBuffer content)) asked)) /\
     isFile path user_cb w
     = (Ok tt, snd (emit (LCallback (LFile target content)) asked))) /\
  (file_at (browser_of w) target = None ->
   is_dir (browser_of w) target = false ->
   readFile path user_cb w
   = (Ok tt, snd (bind (emit (LConsoleLog (lit "Could not read file. Error code: 1")))
                       (fun _ => emit (LCallback LNull)) asked)) /\
   isFile path user_cb w
   = (Ok tt, snd (bind (emit (LConsoleLog (lit "File not found. Error code: 1")))
                       (fun _ => emit (LCallback LNull)) asked))) /\
  browser_of (snd (readFile path user_cb w)) = browser_of w /\
  browser_of (snd (isFile path user_cb w)) = browser_of w.
Proof.
  intros w path Hfs target asked.
  unfold readFile, isFile. rewrite !(with_fs_held _ w FileSystem Hfs).
  unfold getFile, file_of, console_log, user_cb, emit, bind, get, modify.
  cbn [prop_root fs browser_of ltrace]. fold target.
  destruct (file_at (browser_of w) target) as [content|] eqn:Hfile.
  - cbn. rewrite Hfile. cbn. unfold asked. rewrite Hfs.
    split; [|split; [discriminate|now split]].
    intros c Hc. injection Hc as <-. now split.
  - destruct (is_dir (browser_of w) target) eqn:Hdir; cbn.
    + split; [discriminate|]. split; [discriminate|now split].
    + split; [discriminate|]. split; [|now split].
      intros _ _. unfold asked. rewrite Hfs. now split.
Qed.

Lemma local_read_found_witness :
  fs demo_local = Some FileSystem /\
  file_at (browser_of demo_local) (api_target [] (lit "/docs/a.txt"))
  = Some ["h"%byte; "i"%byte] /\
  lcallbacks (ltrace (snd (readFile (lit "/docs/a.txt") user_cb demo_local)))
  = [LBuffer ["h"%byte; "i"%byte]].
Proof.
  split; [reflexivity|]. split; [reflexivity|].
  destruct (local_read_found_or_null demo_local (lit "/docs/a.txt") eq_refl)
    as (Hfound & _).
  destruct (Hfound ["h"%byte; "i"%byte] eq_refl) as (Hread & _).
  rewrite Hread. reflexivity.
Defined.

(** X27.  The local [createPath] and [writeFile] cannot complete: both
    call [getDirectory] on [this.fs], which is the FileSystem object and
    has no such method (the directory is [this.fs.root]).  With the file
    system held they throw a TypeError at that call and change nothing;
    from any state the code can reach, neither ever calls its
    callback. *)
Theorem local_createPath_writeFile_never_complete : forall w path fileData cb,
  fs_as_granted w ->
  (fs w = Some FileSystem ->
   createPath path cb w = (Throw (TypeError "getDirectory is not a function"), w) /\
   writeFile path fileData cb w
   = (Throw (TypeError "getDirectory is not a function"), w)) /\
  lcallbacks (ltrace (snd (createPath path (Some user_cb) w))) = lcallbacks (ltrace w) /\
  lcallbacks (ltrace (snd (writeFile path fileData (Some user_cb) w)))
  = lcallbacks (ltrace w).
Proof.
  intros w path fileData cb Hfs. split; [|split].
  - intro Hheld. split.
    + now apply LocalFacts.local_createPath_throws.
    + now apply LocalFacts.local_writeFile_throws.
  - now apply LocalFacts.local_createPath_never_calls_back.
  - now apply LocalFacts.local_writeFile_never_calls_back.
Qed.

Lemma local_never_complete_witness :
  fs_as_granted demo_local /\
  createPath (lit "/docs/new") (Some user_cb) demo_local
  = (Throw (TypeError "getDirectory is not a function"), demo_local) /\
  lcallbacks (ltrace (snd (writeFile (lit "/docs/b.txt") [] (Some user_cb)
                             demo_local_cold))) = [].
Proof.
  assert (Hheld : fs_as_granted demo_local) by (now right).
  assert (Hcold : fs_as_granted demo_local_cold) by (now left).
  split; [exact Hheld|]. split.
  - destruct (local_createPath_writeFile_never_complete demo_local (lit "/docs/new")
                [] (Some user_cb) Hheld) as (Hthrow & _).
    exact (proj1 (Hthrow eq_refl)).
  - destruct (local_createPath_writeFile_never_complete demo_local_cold
                (lit "/docs/b.txt") [] (Some user_cb) Hcold) as (_ & _ & Hwrite).
    exact Hwrite.
Defined.

End LocalMore.
